(** * Water segmentation (U-Net) and ReGAN: a shallow embedding

    The two Python modules [estimate_depth/models/segmentation.py] and
    [generate_data/gan.py] are embedded function by function.  Tensor entries
    are rationals ([Q]): the arithmetic of the Dice loss and of the image
    normalisation is carried out exactly; the Dice loss can also be read in
    IEEE binary32.  Calls into OpenCV, TensorFlow and
    Keras appear either as parameters of the embedded functions or as small
    models of the library routine, each introduced where it is used.
    Python exceptions are values of [PyError]; a function that may raise
    returns a [Result]. *)

From stdpp Require Import gmap strings.
From Stdlib Require Import ZArith QArith Qround List Ascii String Lia Lqa Bool.
From Stdlib Require Import Sorted Permutation SpecFloat.
Import ListNotations.
Open Scope Q_scope.

(** ** Python exceptions *)

Inductive PyError :=
| AttributeError (attribute : string)
| TypeError (message : string)
| ValueError (message : string)
| FileNotFoundError (path : string)
| ZeroDivisionError
| InvalidArgumentError (message : string)
| cv2_error (message : string).

Inductive Result (A : Type) :=
| Ok (value : A)
| Raise (e : PyError).
Arguments Ok {A} value.
Arguments Raise {A} e.

Definition bind {A B} (r : Result A) (k : A -> Result B) : Result B :=
  match r with
  | Ok a => k a
  | Raise e => Raise e
  end.

Notation "x <- r ;; k" := (bind r (fun x => k))
  (at level 60, r at next level, right associativity).

Fixpoint mapM {A B} (f : A -> Result B) (l : list A) : Result (list B) :=
  match l with
  | [] => Ok []
  | a :: l' => b <- f a ;; bs <- mapM f l' ;; Ok (b :: bs)
  end.

(** Python indexing [l[i]], negative indices counting from the end. *)
Definition py_index {A} (l : list A) (i : Z) : option A :=
  let n := Z.of_nat (List.length l) in
  if (0 <=? i)%Z then nth_error l (Z.to_nat i)
  else if (0 <=? n + i)%Z then nth_error l (Z.to_nat (n + i))
  else None.

(** [sorted] on a list of [str]: ascending, by character code. *)
Fixpoint insert_sorted (a : string) (l : list string) : list string :=
  match l with
  | [] => [a]
  | b :: l' => if String.leb a b then a :: l else b :: insert_sorted a l'
  end.

Definition sorted (l : list string) : list string := fold_right insert_sorted [] l.

Module Segmentation.

Definition IMG_WIDTH : nat := 512.
Definition IMG_HEIGHT : nat := 512.

(** An image as numpy holds it: rows x columns x channels. *)
Definition Pixel := list Q.
Definition Image := list (list Pixel).

(** A zero canvas of shape (rows, columns, 1), as np.zeros builds it. *)
Definition np_zeros (shape : nat * nat) : Image :=
  repeat (repeat [0] (snd shape)) (fst shape).

(** *** OpenCV's polygon fill

    [cv2.fillPoly] is library code.  The model follows its drawing routine:
    every edge of the contour is drawn as an 8-connected line, and the
    scanlines between the non-horizontal edges are filled span by span, the
    edge abscissas being kept in 16.16 fixed point. *)
Module cv2.

Local Open Scope Z_scope.

Definition Point : Type := Z * Z.

Definition XY_SHIFT : Z := 16.

Record PolyEdge := { y0 : Z; y1 : Z; ex : Z; edx : Z }.

(** Consecutive vertex pairs, starting with (last, first). *)
Definition closed_pairs (v : list Point) : list (Point * Point) :=
  match v with
  | [] => []
  | p :: _ => combine (List.last v p :: v) v
  end.

(** Pixels of the 8-connected line from [p] to [q], drawn left to right:
    the closed form of the integer error iteration. *)
Definition Line (p q : Point) (x y : Z) : bool :=
  let '(a, b) := if fst q <? fst p then (q, p) else (p, q) in
  let dx := fst b - fst a in
  let dy := snd b - snd a in
  let ady := Z.abs dy in
  let sy := Z.sgn dy in
  if ady <=? dx
  then (fst a <=? x) && (x <=? fst b)
       && (y =? snd a + sy * ((2 * ady * (x - fst a) + dx - 1) / (2 * dx)))
  else let k := sy * (y - snd a) in
       (0 <=? k) && (k <=? ady)
       && (x =? fst a + (2 * dx * k + ady - 1) / (2 * ady)).

(** One polygon edge in fixed point; horizontal edges are skipped. *)
Definition edge_of (pq : Point * Point) : list PolyEdge :=
  let '(p, q) := pq in
  let px := Z.shiftl (fst p) XY_SHIFT in
  let qx := Z.shiftl (fst q) XY_SHIFT in
  if snd p =? snd q then []
  else let dx := Z.quot (qx - px) (snd q - snd p) in
       if snd p <? snd q
       then [ {| y0 := snd p; y1 := snd q; ex := px; edx := dx |} ]
       else [ {| y0 := snd q; y1 := snd p; ex := qx; edx := dx |} ].

Definition CollectPolyEdges (v : list Point) : list PolyEdge :=
  flat_map edge_of (closed_pairs v).

Fixpoint insert (a : Z) (l : list Z) : list Z :=
  match l with
  | [] => [a]
  | b :: l' => if a <=? b then a :: l else b :: insert a l'
  end.

Definition sort (l : list Z) : list Z := fold_right insert [] l.

(** Spans between the 1st and 2nd, 3rd and 4th, ... crossing of a scanline. *)
Fixpoint in_spans (xs : list Z) (x : Z) : bool :=
  match xs with
  | a :: b :: rest =>
      ((Z.shiftr a XY_SHIFT <=? x) && (x <=? Z.shiftr b XY_SHIFT)) || in_spans rest x
  | _ => false
  end.

Definition active (y : Z) (e : PolyEdge) : bool := (y0 e <=? y) && (y <? y1 e).
Definition x_at (y : Z) (e : PolyEdge) : Z := ex e + (y - y0 e) * edx e.

Definition FillEdgeCollection (edges : list PolyEdge) (x y : Z) : bool :=
  if (List.length edges <? 2)%nat then false
  else in_spans (sort (map (x_at y) (filter (active y) edges))) x.

(** The pixels [fillPoly] writes for one contour: its outline and its inside. *)
Definition covered (v : list Point) (x y : Z) : bool :=
  existsb (fun pq => Line (fst pq) (snd pq) x y) (closed_pairs v)
  || FillEdgeCollection (CollectPolyEdges v) x y.

(** A scalar colour fills the first channel. *)
Definition put (color : Q) (px : Pixel) : Pixel :=
  match px with
  | [] => []
  | _ :: rest => color :: map (fun _ => 0%Q) rest
  end.

Fixpoint mapi {A B} (f : Z -> A -> B) (i : Z) (l : list A) : list B :=
  match l with
  | [] => []
  | a :: l' => f i a :: mapi f (i + 1) l'
  end.

(** [cv2.fillPoly(img, pts=[v], color)]; an empty point array is rejected. *)
Definition fillPoly (img : Image) (v : list Point) (color : Q) : option Image :=
  match v with
  | [] => None
  | _ => Some (mapi (fun y row =>
                 mapi (fun x px => if covered v x y then put color px else px) 0 row)
               0 img)
  end.

End cv2.

(** A polygon label: the list of x coordinates and the list of y coordinates. *)
Definition Label : Type := list Z * list Z.

Definition _get_mask (labels : list Label) (shape : nat * nat) : option Image :=
  fold_left
    (fun mask label =>
       match mask with
       | None => None
       | Some mask =>
           let coords := combine (fst label) (snd label) in
           cv2.fillPoly mask coords 255
       end)
    labels (Some (np_zeros shape)).

(** *** Resize, cast and normalise *)

(** Rounding towards zero. *)
Definition Qtrunc (q : Q) : Z :=
  if Qle_bool 0 q then Qfloor q else Qceiling q.

(** [tf.cast(_, np.uint8)]: truncation, kept in the 8-bit range. *)
Definition cast_uint8 (q : Q) : Z := (Qtrunc q mod 256)%Z.

Definition map_pixels (f : Q -> Q) (img : Image) : Image :=
  map (map (map f)) img.

Section ConvertImage.

(** [tf.image.resize_with_pad image target_height target_width]: the
    resized and padded image, or the exception TensorFlow raises. *)
Variable resize_with_pad : Image -> nat -> nat -> Result Image.

Definition _convert_image (image : Image) : Result Image :=
  resized <- resize_with_pad image IMG_WIDTH IMG_HEIGHT ;;
  Ok (map_pixels (fun v => inject_Z (cast_uint8 v) / 255) resized).

End ConvertImage.

(** A model of [tf.image.resize_with_pad], in exact arithmetic: the image
    is scaled by the larger of the two size ratios, with bilinear
    interpolation at half-pixel centres, and padded with zeros to the target
    size.  An image with an empty dimension is refused, and so is a resized
    size of zero rows or zero columns. *)
Module tf_image.

Definition Qmax (a b : Q) : Q := if Qle_bool a b then b else a.

Definition nat_Q (n : nat) : Q := inject_Z (Z.of_nat n).

Definition channel (img : Image) (y x : Z) (c : nat) : Q :=
  nth c (nth (Z.to_nat x) (nth (Z.to_nat y) img []) []) 0.

(** Source coordinate, its two neighbours and the interpolation weight. *)
Definition interpolation (out_size in_size : Z) (o : Z) : Z * Z * Q :=
  let scale := inject_Z in_size / inject_Z out_size in
  let pos := (inject_Z o + (1 # 2)) * scale - (1 # 2) in
  let lower := Z.max (Qfloor pos) 0 in
  let upper := Z.min (Qceiling pos) (in_size - 1) in
  (lower, upper, pos - inject_Z (Qfloor pos)).

Definition bilinear (img : Image) (height width rh rw : Z) (oy ox : Z) (c : nat) : Q :=
  let '(y_lo, y_hi, y_lerp) := interpolation rh height oy in
  let '(x_lo, x_hi, x_lerp) := interpolation rw width ox in
  let top := channel img y_lo x_lo c
             + (channel img y_lo x_hi c - channel img y_lo x_lo c) * x_lerp in
  let bottom := channel img y_hi x_lo c
                + (channel img y_hi x_hi c - channel img y_hi x_lo c) * x_lerp in
  top + (bottom - top) * y_lerp.

Definition resize_with_pad (image : Image) (target_height target_width : nat)
  : Result Image :=
  let height := List.length image in
  let width := List.length (hd [] image) in
  let channels := List.length (hd [] (hd [] image)) in
  if ((height =? 0) || (width =? 0) || (channels =? 0))%nat
  then Raise (ValueError "all dims of 'image.shape' must be > 0")
  else if ((target_height =? 0) || (target_width =? 0))%nat
  then Raise (ValueError "target_height and target_width must be > 0")
  else
  let ratio := Qmax (nat_Q width / nat_Q target_width)
                    (nat_Q height / nat_Q target_height) in
  let resized_height_float := nat_Q height / ratio in
  let resized_width_float := nat_Q width / ratio in
  let resized_height := Qfloor resized_height_float in
  let resized_width := Qfloor resized_width_float in
  let p_height := Z.max 0 (Qfloor ((nat_Q target_height - resized_height_float) / 2)) in
  let p_width := Z.max 0 (Qfloor ((nat_Q target_width - resized_width_float) / 2)) in
  if ((resized_height <=? 0) || (resized_width <=? 0))%Z
  then Raise (InvalidArgumentError "output dimensions must be positive")
  else Ok (
  map (fun oy =>
    map (fun ox =>
      let y := (Z.of_nat oy - p_height)%Z in
      let x := (Z.of_nat ox - p_width)%Z in
      if ((0 <=? y) && (y <? resized_height) && (0 <=? x) && (x <? resized_width))%Z
      then map (bilinear image (Z.of_nat height) (Z.of_nat width)
                         resized_height resized_width y x) (seq 0 channels)
      else repeat 0 channels)
      (seq 0 target_width))
    (seq 0 target_height)).

(** [tf.image.rgb_to_grayscale]: one channel, the weighted sum of the three. *)
Definition rgb_weights : list Q := [2989 # 10000; 5870 # 10000; 1140 # 10000].

Definition rgb_to_grayscale (img : Image) : Image :=
  map (map (fun px =>
    [fold_right Qplus 0 (map (fun vw => fst vw * snd vw) (combine px rgb_weights))])) img.

End tf_image.

(** *** The folder-pair loader *)

(** What the loader sees of the disk: [os.listdir] (absent directory: [None])
    and [cv2.imread] (unreadable file: [None]). *)
Record FileSystem := {
  listdir : string -> option (list string);
  imread : string -> option Image
}.

Definition os_listdir (fs : FileSystem) (path : string) : Result (list string) :=
  match listdir fs path with
  | Some names => Ok names
  | None => Raise (FileNotFoundError path)
  end.

Section Loader.

Variable resize_with_pad : Image -> nat -> nat -> Result Image.
Variable fs : FileSystem.

(** Lines 76-78: read one image, resize, cast and scale it. *)
Definition load_image (img_path : string) : Result Image :=
  match imread fs img_path with
  | Some img =>
      resized <- resize_with_pad img IMG_WIDTH IMG_HEIGHT ;;
      Ok (map_pixels (fun v => inject_Z (cast_uint8 v) / 255) resized)
  | None => Raise (ValueError "Attempt to convert a value (None) to a Tensor")
  end.

(** Lines 83-86: the same for a mask, followed by the grey-scale conversion. *)
Definition load_mask (img_path : string) : Result Image :=
  mask <- load_image img_path ;;
  Ok (tf_image.rgb_to_grayscale mask).

(** The body of [for dir in dirs], with the two accumulators. *)
Fixpoint load_dirs (images_path truth_path : string) (dirs : list string)
    (x_train y_train : list Image) : Result (list Image * list Image) :=
  match dirs with
  | [] => Ok (x_train, y_train)
  | dir :: dirs' =>
      let images_dir := (images_path ++ dir ++ "/")%string in
      let truth_dir := (truth_path ++ dir ++ "/")%string in
      names <- os_listdir fs images_dir ;;
      xs <- mapM (fun img_name => load_image (images_dir ++ img_name)%string)
                 (sorted names) ;;
      names <- os_listdir fs truth_dir ;;
      ys <- mapM (fun img_name => load_mask (truth_dir ++ img_name)%string)
                 (sorted names) ;;
      load_dirs images_path truth_path dirs' (x_train ++ xs) (y_train ++ ys)
  end.

Definition _load_kaggle_dataset (path : string) : Result (list Image * list Image) :=
  let images_path := (path ++ "images/")%string in
  let truth_path := (path ++ "truth/")%string in
  dirs <- os_listdir fs (path ++ "truth")%string ;;
  load_dirs images_path truth_path dirs [] [].

End Loader.

(** *** The Dice coefficient and the Dice loss *)

(** The arithmetic of tensor entries.  The functions below are written once
    and read either in exact rational arithmetic or in IEEE binary32, the
    [float32] of TensorFlow. *)
Class Arithmetic (T : Type) := {
  literal : Q -> T;
  add : T -> T -> T;
  sub : T -> T -> T;
  mult : T -> T -> T;
  div : T -> T -> T
}.

#[export] Instance exact : Arithmetic Q :=
  {| literal := fun q => q; add := Qplus; sub := Qminus; mult := Qmult; div := Qdiv |}.

Module binary32.

Definition prec : Z := 24.
Definition emax : Z := 128.

(** An integer as a Python float (binary64). *)
Definition of_Z64 (z : Z) : spec_float := binary_normalize 53 1024 z 0 false.

(** Rounding of a binary64 value to binary32. *)
Definition round (x : spec_float) : spec_float :=
  match x with
  | S754_finite s m e => binary_round prec emax s m e
  | _ => x
  end.

(** A decimal literal: the nearest binary64 value, converted to binary32. *)
Definition of_Q (q : Q) : spec_float :=
  round (SFdiv 53 1024 (of_Z64 (Qnum q)) (of_Z64 (Zpos (Qden q)))).

End binary32.

#[export] Instance float32 : Arithmetic spec_float :=
  {| literal := binary32.of_Q;
     add := SFadd binary32.prec binary32.emax;
     sub := SFsub binary32.prec binary32.emax;
     mult := SFmul binary32.prec binary32.emax;
     div := SFdiv binary32.prec binary32.emax |}.

(** A batch as Keras hands it to a loss: batch x rows x columns x channels. *)
Definition Tensor4 := list Image.
Definition Tensor2 := list (list Q).

Section Dice.

Context {T : Type} `{Arithmetic T}.

(** [layers.Flatten()]: every batch item becomes one row. *)
Definition Flatten (t : list (list (list (list T)))) : list (list T) :=
  map (fun item => List.concat (List.concat item)) t.

(** Element-wise product of two tensors of one shape. *)
Fixpoint mul_row (a b : list T) : list T :=
  match a, b with
  | x :: a', y :: b' => mult x y :: mul_row a' b'
  | _, _ => []
  end.

Fixpoint mul (a b : list (list T)) : list (list T) :=
  match a, b with
  | r :: a', s :: b' => mul_row r s :: mul a' b'
  | _, _ => []
  end.

Definition sum_row (r : list T) : T := fold_right add (literal 0) r.

(** [tf.reduce_sum] without an axis: the sum of all entries. *)
Definition reduce_sum (t : list (list T)) : T :=
  fold_right (fun r acc => add (sum_row r) acc) (literal 0) t.

Definition _dice_coef (y_true y_pred : list (list (list (list T)))) (smooth : T) : T :=
  let y_true := Flatten y_true in
  let y_pred := Flatten y_pred in
  let intersection := reduce_sum (mul y_true y_pred) in
  div (add (mult (literal 2) intersection) smooth)
      (add (add (reduce_sum y_true) (reduce_sum y_pred)) smooth).

(** The default argument [smooth=1e-15]. *)
Definition smooth_default : Q := 1 # 1000000000000000.

Definition _dice_loss (y_true y_pred : list (list (list (list T)))) : T :=
  sub (literal 1) (_dice_coef y_true y_pred (literal smooth_default)).

End Dice.

(** *** The U-Net *)

Module keras.

Inductive Layer :=
| UpSampling2D (size : nat * nat)
| Concatenate
| Conv2D (filters : nat) (kernel_size : nat * nat) (padding : string)
| BatchNormalization
| Activation (fn : string).

(** A symbolic tensor of the functional API: the output of a named layer of
    the backbone, or a layer applied to one or two tensors. *)
Inductive KTensor :=
| Output (layer_name : string)
| Call (l : Layer) (x : KTensor)
| Call2 (l : Layer) (x x_skip : KTensor).

(** A layer of the pretrained backbone: its name, its [trainable] attribute
    and the shape (rows, columns, channels) of its output. *)
Record BackboneLayer := {
  layer_name : string;
  trainable : bool;
  output_shape : nat * nat * nat
}.

(** [layers.Input(shape, name)]: a fresh input layer. *)
Definition Input (shape : nat * nat * nat) (name : string) : BackboneLayer :=
  {| layer_name := name; trainable := true; output_shape := shape |}.

Inductive Optimizer := Nadam (learning_rate : Q).

Inductive Metric :=
| Function (f : Tensor4 -> Tensor4 -> Q)
| Recall
| Precision.

Record CompileConfig := {
  optimizer : Optimizer;
  loss : Tensor4 -> Tensor4 -> Q;
  metrics : list Metric
}.

(** A model: the backbone layers it contains (in graph order), its output
    tensor, the function it computes on one image with its current weights,
    and the configuration attached by [compile], if any. *)
Record Model := {
  backbone : list BackboneLayer;
  outputs : KTensor;
  forward : Image -> Image;
  compiled : option CompileConfig
}.

Definition get_layer (encoder : list BackboneLayer) (name : string)
  : Result BackboneLayer :=
  match find (fun l => String.eqb (layer_name l) name) encoder with
  | Some l => Ok l
  | None => Raise (ValueError ("No such layer: " ++ name))
  end.

(** The layers of a chain up to and including the named one. *)
Fixpoint upto (name : string) (layers : list BackboneLayer) : list BackboneLayer :=
  match layers with
  | [] => []
  | l :: rest => if String.eqb (layer_name l) name then [l] else l :: upto name rest
  end.

Definition compile (m : Model) (opt : Optimizer) (loss : Tensor4 -> Tensor4 -> Q)
    (metrics : list Metric) : Model :=
  {| backbone := backbone m; outputs := outputs m; forward := forward m;
     compiled := Some {| optimizer := opt; loss := loss; metrics := metrics |} |}.

(** Shape inference of the layers used by the decoder. *)
Fixpoint shape (encoder : list BackboneLayer) (t : KTensor) : option (nat * nat * nat) :=
  match t with
  | Output name =>
      match get_layer encoder name with
      | Ok l => Some (output_shape l)
      | Raise _ => None
      end
  | Call l x =>
      match shape encoder x, l with
      | Some (h, w, _), Conv2D filters _ "same" => Some (h, w, filters)
      | Some (h, w, c), UpSampling2D (a, b) => Some (h * a, w * b, c)%nat
      | Some s, BatchNormalization => Some s
      | Some s, Activation _ => Some s
      | _, _ => None
      end
  | Call2 l x y =>
      match shape encoder x, shape encoder y, l with
      | Some (h, w, c), Some (h', w', c'), Concatenate =>
          if ((h =? h') && (w =? w'))%nat then Some (h, w, c + c')%nat else None
      | _, _, _ => None
      end
  end.



End keras.

Import keras.

Section UNet.

(** [tf.keras.applications.MobileNetV2(input_tensor=inputs, include_top=False,
    weights="imagenet")]: the layers of the pretrained network built on the
    given input layer, in graph order. *)
Variable MobileNetV2 : BackboneLayer -> list BackboneLayer.

(** The function computed by a graph over the backbone, given its weights. *)
Variable network : list BackboneLayer -> KTensor -> Image -> Image.

(** One pass of the decoder loop. *)
Definition decoder_step (encoder : list BackboneLayer)
    (skip_connection_names : list string) (f : list nat)
    (x : KTensor) (i : Z) : Result KTensor :=
  match py_index skip_connection_names (- i), py_index f (- i) with
  | Some name, Some filters =>
      _ <- get_layer encoder name ;;
      let x_skip := Output name in
      let x := Call (UpSampling2D (2, 2)%nat) x in
      let x := Call2 Concatenate x x_skip in
      let x := Call (Conv2D filters (3, 3)%nat "same") x in
      let x := Call BatchNormalization x in
      let x := Call (Activation "relu") x in
      let x := Call (Conv2D filters (3, 3)%nat "same") x in
      let x := Call BatchNormalization x in
      let x := Call (Activation "relu") x in
      Ok x
  | _, _ => Raise (ValueError "list index out of range")
  end.

Fixpoint decoder_loop (encoder : list BackboneLayer)
    (skip_connection_names : list string) (f : list nat)
    (x : KTensor) (range : list Z) : Result KTensor :=
  match range with
  | [] => Ok x
  | i :: range' =>
      x <- decoder_step encoder skip_connection_names f x i ;;
      decoder_loop encoder skip_connection_names f x range'
  end.

(** [range(start, stop)]. *)
Definition py_range (start stop : Z) : list Z :=
  map (fun k => (start + Z.of_nat k)%Z) (seq 0 (Z.to_nat (stop - start))).

Definition _create_model : Result Model :=
  let inputs := Input (IMG_WIDTH, IMG_HEIGHT, 3%nat) "input_image" in
  let encoder := MobileNetV2 inputs in
  let skip_connection_names :=
    ["input_image"; "block_1_expand_relu"; "block_3_expand_relu";
     "block_6_expand_relu"]%string in
  _ <- get_layer encoder "block_13_expand_relu" ;;
  let encoder_output := Output "block_13_expand_relu" in
  let f := [16; 32; 48; 64; 128]%nat in
  let x := encoder_output in
  x <- decoder_loop encoder skip_connection_names f x
         (py_range 1 (Z.of_nat (List.length skip_connection_names) + 1)) ;;
  let x := Call (Conv2D 1 (1, 1)%nat "same") x in
  let x := Call (Activation "sigmoid") x in
  let unet := {| backbone := upto "block_13_expand_relu" encoder;
                 outputs := x;
                 forward := network encoder x;
                 compiled := None |} in
  Ok (compile unet (Nadam (1 # 10000)) _dice_loss
        [Function (fun y_true y_pred => _dice_coef y_true y_pred (literal smooth_default));
         Recall; Precision]).

End UNet.

Section Inference.

(** The model directories on disk, as [model.save] left them. *)
Variable saved_models : string -> option Model.






End Inference.

(** *** Vocabulary of the properties and sample inputs *)








(** Two disjoint masks of one batch item, two rows, two columns. *)
Definition mask_left : Tensor4 := [[[[1]; [0]]; [[1]; [0]]]].
Definition mask_right : Tensor4 := [[[[0]; [1]]; [[0]; [0]]]].

(** A tensor of rationals as a [float32] tensor. *)
Definition as_float32 (t : Tensor4) : list (list (list (list spec_float))) :=
  map (map (map (map binary32.of_Q))) t.

Section MaskVocabulary.

Local Open Scope Z_scope.
Import cv2.

(** The pixel in column [x] of row [y]. *)
Definition pixel (m : Image) (x y : nat) : option Pixel :=
  match nth_error m y with
  | Some row => nth_error row x
  | None => None
  end.

(** The rectangle through the four corner pixels of an image of [h] rows
    and [w] columns. *)
Definition rectangle (h w : nat) : Label :=
  ([0; Z.of_nat w - 1; Z.of_nat w - 1; 0], [0; 0; Z.of_nat h - 1; Z.of_nat h - 1]).

(** The label has at least one point. *)
Definition has_points (l : Label) : Prop := fst l <> [] /\ snd l <> [].

(** A single channel holding background or foreground. *)
Definition two_level (px : Pixel) : Prop := px = [0%Q] \/ px = [255%Q].

(** [h] rows of [w] pixels. *)
Definition has_shape (m : Image) (h w : nat) : Prop :=
  List.length m = h /\ Forall (fun row => List.length row = w) m.

(** The body of the loop of [_get_mask]. *)
Definition step (mask : option Image) (label : Label) : option Image :=
  match mask with
  | None => None
  | Some mask => fillPoly mask (combine (fst label) (snd label)) 255
  end.

End MaskVocabulary.

(** The interval [0, 1]. *)
Definition unit_interval (v : Q) : Prop := 0 <= v /\ v <= 1.

(** An 8-bit image of [h] rows and [w] columns: at least one row, one
    column and one channel, every pixel with the same number of channels,
    every channel an integer between 0 and 255. *)
Definition valid_8bit (img : Image) (h w : nat) : Prop :=
  (1 <= h)%nat /\ (1 <= w)%nat /\ has_shape img h w
  /\ (exists c, (1 <= c)%nat /\ Forall (Forall (fun px => List.length px = c)) img)
  /\ Forall (Forall (Forall (fun v => exists k, (0 <= k <= 255)%Z /\ v = inject_Z k))) img.

(** Scaled to fit the target, the image keeps at least one row and one
    column: its aspect ratio does not exceed the target size. *)
Definition fits (h w target_height target_width : nat) : Prop :=
  (w <= h * target_width)%nat /\ (h <= w * target_height)%nat.

(** What [resize_with_pad] delivers: on an image that fits, the target size. *)
Definition resize_contract (resize_with_pad : Image -> nat -> nat -> Result Image)
  : Prop :=
  forall img h w target_height target_width,
    valid_8bit img h w ->
    (1 <= target_height)%nat -> (1 <= target_width)%nat ->
    fits h w target_height target_width ->
    exists resized,
      resize_with_pad img target_height target_width = Ok resized
      /\ has_shape resized target_height target_width.



(** Ascending order of file names. *)
Definition ascending (l : list string) : Prop :=
  StronglySorted (fun a b => String.leb a b = true) l.

Section LoaderVocabulary.

Variable resize_with_pad : Image -> nat -> nat -> Result Image.
Variable fs : FileSystem.
Variables images_path truth_path : string.

(** The files [os.listdir] reports in each subset of the two trees. *)
Variables images truth : string -> list string.

(** The normalised content of a file, were it readable. *)
Definition image_at (img_path : string) : Image :=
  match imread fs img_path with
  | Some img =>
      match resize_with_pad img IMG_WIDTH IMG_HEIGHT with
      | Ok resized => map_pixels (fun v => inject_Z (cast_uint8 v) / 255) resized
      | Raise _ => []
      end
  | None => []
  end.

Definition mask_at (img_path : string) : Image :=
  tf_image.rgb_to_grayscale (image_at img_path).

(** The file holds an image that [resize_with_pad] accepts. *)
Definition readable (img_path : string) : Prop :=
  exists img resized,
    imread fs img_path = Some img
    /\ resize_with_pad img IMG_WIDTH IMG_HEIGHT = Ok resized.

(** The directory of a subset in each tree. *)
Definition images_dir (dir : string) : string := (images_path ++ dir ++ "/")%string.
Definition truth_dir (dir : string) : string := (truth_path ++ dir ++ "/")%string.

(** Every subset is listed in both trees and every listed file is readable. *)
Definition loadable (dir : string) : Prop :=
  listdir fs (images_dir dir) = Some (images dir)
  /\ listdir fs (truth_dir dir) = Some (truth dir)
  /\ (forall name, In name (images dir) -> readable (images_dir dir ++ name))
  /\ (forall name, In name (truth dir) -> readable (truth_dir dir ++ name)).

(** The files read for [x_train] and for [y_train], in reading order. *)
Definition image_files (dirs : list string) : list string :=
  flat_map (fun dir => map (fun name => (images_dir dir ++ name)%string)
                           (sorted (images dir))) dirs.
Definition truth_files (dirs : list string) : list string :=
  flat_map (fun dir => map (fun name => (truth_dir dir ++ name)%string)
                           (sorted (truth dir))) dirs.

End LoaderVocabulary.

(** The (subset, file name) pairs of a tree, subset by subset, names ascending. *)
Definition listing (files : string -> list string) (dirs : list string)
  : list (string * string) :=
  flat_map (fun dir => map (pair dir) (sorted (files dir))) dirs.

(** A white image of one pixel. *)
Definition tiny_image : Image := [[[255; 255; 255]]].

(** A tree with two images and one mask in the subset [a]. *)
Definition fs_mismatch : FileSystem := {|
  listdir := fun p =>
    if String.eqb p "data/truth" then Some ["a"%string]
    else if String.eqb p "data/images/a/" then Some ["2.png"; "1.png"]%string
    else if String.eqb p "data/truth/a/" then Some ["1.png"%string]
    else None;
  imread := fun p =>
    if existsb (String.eqb p)
         ["data/images/a/1.png"; "data/images/a/2.png"; "data/truth/a/1.png"]%string
    then Some tiny_image else None
|}.

(** A tree with the same two file names in both subsets. *)
Definition fs_matching : FileSystem := {|
  listdir := fun p =>
    if String.eqb p "data/truth" then Some ["a"%string]
    else if String.eqb p "data/images/a/" then Some ["2.png"; "1.png"]%string
    else if String.eqb p "data/truth/a/" then Some ["1.png"; "2.png"]%string
    else None;
  imread := fun p => Some tiny_image
|}.

(** The five backbone layers [_create_model] asks for. *)
Definition named_layers : list string :=
  ["block_13_expand_relu"; "block_6_expand_relu"; "block_3_expand_relu";
   "block_1_expand_relu"; "input_image"]%string.

(** The backbone has a layer of that name. *)
Definition has_layer (encoder : list BackboneLayer) (name : string) : Prop :=
  exists l, get_layer encoder name = Ok l.

(** One decoder stage, in the words of the specification: upsample by two,
    concatenate with the skip connection, then twice convolution, batch
    normalisation and ReLU with the stage's number of filters. *)
Definition conv_bn_relu (filters : nat) (x : KTensor) : KTensor :=
  Call (Activation "relu") (Call BatchNormalization (Call (Conv2D filters (3, 3)%nat "same") x)).

Definition decoder_stage (filters : nat) (skip : string) (x : KTensor) : KTensor :=
  conv_bn_relu filters (conv_bn_relu filters
    (Call2 Concatenate (Call (UpSampling2D (2, 2)%nat) x) (Output skip))).

Definition unet_output : KTensor :=
  Call (Activation "sigmoid") (Call (Conv2D 1 (1, 1)%nat "same")
    (decoder_stage 32 "input_image"
      (decoder_stage 48 "block_1_expand_relu"
        (decoder_stage 64 "block_3_expand_relu"
          (decoder_stage 128 "block_6_expand_relu"
            (Output "block_13_expand_relu")))))).

(** The configuration named by the specification: Nadam at 1e-4, the Dice
    loss, and the metrics Dice coefficient, recall and precision. *)
Definition training_configuration : CompileConfig :=
  {| optimizer := Nadam (1 # 10000);
     loss := _dice_loss;
     metrics := [Function (fun y_true y_pred => _dice_coef y_true y_pred (literal smooth_default));
                 Recall; Precision] |}.

(** The input layer [_create_model] builds. *)
Definition model_inputs : BackboneLayer :=
  Input (IMG_WIDTH, IMG_HEIGHT, 3%nat) "input_image".

(** The layers of MobileNetV2 that the code names, with the output shapes
    they have for a 512 x 512 x 3 input, and the last layer of the network.
    Keras creates every layer with [trainable = True]. *)
Definition mobilenet (inputs : BackboneLayer) : list BackboneLayer :=
  [ inputs;
    {| layer_name := "block_1_expand_relu"; trainable := true;
       output_shape := (256, 256, 96)%nat |};
    {| layer_name := "block_3_expand_relu"; trainable := true;
       output_shape := (128, 128, 144)%nat |};
    {| layer_name := "block_6_expand_relu"; trainable := true;
       output_shape := (64, 64, 192)%nat |};
    {| layer_name := "block_13_expand_relu"; trainable := true;
       output_shape := (32, 32, 576)%nat |};
    {| layer_name := "out_relu"; trainable := true; output_shape := (16, 16, 1280)%nat |} ].

Definition mobilenet_layers : list BackboneLayer := mobilenet model_inputs.

(** A stand-in for the function a graph computes. *)
Definition identity_network : list BackboneLayer -> KTensor -> Image -> Image :=
  fun _ _ image => image.

(** The named layer exists and puts out [rows] x [columns] feature maps. *)
Definition feature_map (encoder : list BackboneLayer) (name : string)
    (rows columns : nat) : Prop :=
  exists l, get_layer encoder name = Ok l /\ fst (output_shape l) = (rows, columns).




(** *** The annotated webcam images *)

(** The exceptions of [_load_dataset] and [_display]: those of [PyError]
    and the two raised by a subscript. *)
Inductive Exception :=
| KeyError (key : string)
| IndexError (message : string)
| Builtin (e : PyError).

Inductive Outcome (A : Type) :=
| Returned (value : A)
| Raised (e : Exception).
Arguments Returned {A} value.
Arguments Raised {A} e.

Definition and_then {A B} (r : Outcome A) (k : A -> Outcome B) : Outcome B :=
  match r with
  | Returned a => k a
  | Raised e => Raised e
  end.

Notation "x <<- r ;; k" := (and_then r (fun x => k))
  (at level 60, r at next level, right associativity).

Definition builtin {A} (r : Result A) : Outcome A :=
  match r with
  | Ok a => Returned a
  | Raise e => Raised (Builtin e)
  end.

Fixpoint for_each {A B} (f : A -> Outcome B) (l : list A) : Outcome (list B) :=
  match l with
  | [] => Returned []
  | a :: l' => b <<- f a ;; bs <<- for_each f l' ;; Returned (b :: bs)
  end.

(** A [dict] with [str] keys, in insertion order. *)
Definition Dict (A : Type) : Type := list (string * A).

(** [d[key]]. *)
Fixpoint getitem {A} (d : Dict A) (key : string) : Outcome A :=
  match d with
  | [] => Raised (KeyError key)
  | (k, v) :: d' => if String.eqb k key then Returned v else getitem d' key
  end.

(** The entry of a dictionary under a fixed key, [None] if it has none. *)
Definition item {A} (key : string) (entry : option A) : Outcome A :=
  match entry with
  | Some a => Returned a
  | None => Raised (KeyError key)
  end.

(** The annotation file of the VGG Image Annotator as [json.load] returns
    it: image key -> segment; a segment may hold [regions], region id ->
    region; a region may hold [shape_attributes], which may hold the two
    coordinate lists of a polygon. *)
Record ShapeAttributes := {
  all_points_x : option (list Z);
  all_points_y : option (list Z)
}.

Record Region := { shape_attributes : option ShapeAttributes }.

Record Segment := { regions : option (Dict Region) }.

(** [s.split(sep)[0]] for a non-empty [sep]: what precedes the first
    occurrence of [sep], the whole of [s] if there is none. *)
Fixpoint split_0 (sep s : string) : string :=
  if String.prefix sep s then EmptyString
  else match s with
       | EmptyString => EmptyString
       | String c s' => String c (split_0 sep s')
       end.

Section Webcam.

Variable resize_with_pad : Image -> nat -> nat -> Result Image.
Variable fs : FileSystem.

(** [json.load(open(p))]: the content of the file, if there is one. *)
Variable json_load_open : string -> option (Dict Segment).

(** Line 39. *)
Definition img_path_of (path img_name : string) : string :=
  (split_0 ".png" (path ++ img_name) ++ ".png")%string.

(** Lines 46-47: the label of one region. *)
Definition region_label (regions : Dict Region) (region : string) : Outcome Label :=
  r <<- getitem regions region ;;
  row <<- item "shape_attributes" (shape_attributes r) ;;
  xs <<- item "all_points_x" (all_points_x row) ;;
  ys <<- item "all_points_y" (all_points_y row) ;;
  Returned (xs, ys).

(** Lines 39-52: the image and the mask of one key. *)
Definition load_entry (path : string) (segmentations : Dict Segment) (img_name : string)
  : Outcome (Image * Image) :=
  let img_path := img_path_of path img_name in
  let img := imread fs img_path in
  segment <<- getitem segmentations img_name ;;
  regions <<- item "regions" (regions segment) ;;
  labels <<- for_each (region_label regions) (map fst regions) ;;
  match img with
  | None => Raised (Builtin (AttributeError "shape"))
  | Some img =>
      let shape := (List.length img, List.length (hd [] img)) in
      match _get_mask labels shape with
      | None => Raised (Builtin (cv2_error "p.checkVector(2, CV_32S) >= 0"))
      | Some mask =>
          x_i <<- builtin (_convert_image resize_with_pad img) ;;
          y_i <<- builtin (_convert_image resize_with_pad mask) ;;
          Returned (x_i, y_i)
      end
  end.

(** The loop of line 37, with the two accumulators. *)
Fixpoint load_entries (path : string) (segmentations : Dict Segment)
    (keys : list string) (x y : list Image) : Outcome (list Image * list Image) :=
  match keys with
  | [] => Returned (x, y)
  | img_name :: keys' =>
      xy <<- load_entry path segmentations img_name ;;
      load_entries path segmentations keys' (x ++ [fst xy]) (y ++ [snd xy])
  end.

Definition _load_dataset (path : string) : Outcome (list Image * list Image) :=
  match json_load_open (path ++ "segmentation.json")%string with
  | None => Raised (Builtin (FileNotFoundError (path ++ "segmentation.json")))
  | Some segmentations =>
      let keys := map fst segmentations in
      load_entries path segmentations keys [] []
  end.

End Webcam.

(** *** Showing images *)

(** The calls [_display] makes into matplotlib. *)
Inductive PlotCall (A : Type) :=
| figure
| add_subplot (nrows ncols index : nat)
| imshow (img : A)
| axis (option : string)
| savefig (fname format : string) (dpi : nat)
| show
| close.
Arguments figure {A}.
Arguments add_subplot {A} nrows ncols index.
Arguments imshow {A} img.
Arguments axis {A} option.
Arguments savefig {A} fname format dpi.
Arguments show {A}.
Arguments close {A}.

Section Display.

(** What [plt.imshow] is given; it is taken to accept every image. *)
Context {A : Type}.

(** [fig.add_subplot(nrows, ncols, index)] accepts the positions
    1 .. nrows * ncols of the grid. *)
Definition valid_subplot (nrows ncols index : nat) : bool :=
  ((1 <=? index) && (index <=? nrows * ncols))%nat.

(** Lines 148-152: the images of one row; the calls made so far are threaded
    through, and kept when a call raises. *)
Fixpoint display_data (rows columns : nat) (data : list A) (curr_img : nat)
    (calls : list (PlotCall A)) : Outcome nat * list (PlotCall A) :=
  match data with
  | [] => (Returned curr_img, calls)
  | img :: data' =>
      if valid_subplot rows columns curr_img
      then display_data rows columns data' (curr_img + 1)
             (calls ++ [add_subplot rows columns curr_img; imshow img; axis "off"])
      else (Raised (Builtin (ValueError "num must be an integer with 1 <= num <= nrows*ncols")),
            calls)
  end.

(** Lines 147-152. *)
Fixpoint display_images (rows columns : nat) (images : list (list A)) (curr_img : nat)
    (calls : list (PlotCall A)) : Outcome nat * list (PlotCall A) :=
  match images with
  | [] => (Returned curr_img, calls)
  | data :: images' =>
      match display_data rows columns data curr_img calls with
      | (Returned curr_img, calls) => display_images rows columns images' curr_img calls
      | (Raised e, calls) => (Raised e, calls)
      end
  end.

Definition _display (images : list (list A)) (name : option string)
  : Outcome unit * list (PlotCall A) :=
  let calls := [figure] in
  match images with
  | [] => (Raised (IndexError "list index out of range"), calls)
  | first :: _ =>
      let columns := List.length first in
      let rows := List.length images in
      let curr_img := 1%nat in
      match display_images rows columns images curr_img calls with
      | (Returned _, calls) =>
          let calls :=
            match name with
            | Some name => calls ++ [savefig ("results/" ++ name) "svg" 1200]
            | None => calls
            end in
          (Returned tt, calls ++ [show; close])
      | (Raised e, calls) => (Raised e, calls)
      end
  end.

End Display.



(** *** Vocabulary of the further properties *)

(** [sep] occurs in [s]. *)
Definition occurs (sep s : string) : Prop :=
  exists a b, s = (a ++ sep ++ b)%string.

Section WebcamVocabulary.

Variable fs : FileSystem.
Variable path : string.

(** The region is a polygon with at least one vertex. *)
Definition polygon (r : Region) : Prop :=
  exists row xs ys,
    shape_attributes r = Some row
    /\ all_points_x row = Some xs /\ all_points_y row = Some ys
    /\ has_points (xs, ys).

(** An entry of the annotation file that can be loaded: its regions are
    polygons, and its image file holds an 8-bit image whose aspect ratio
    does not exceed 512 : 1 either way. *)
Definition annotated (entry : string * Segment) : Prop :=
  (exists rs, regions (snd entry) = Some rs /\ Forall (fun r => polygon (snd r)) rs)
  /\ exists img h w,
       imread fs (img_path_of path (fst entry)) = Some img
       /\ valid_8bit img h w /\ fits h w 512 512.

End WebcamVocabulary.

(** 512 rows of 512 pixels, every value in [0, 1]. *)
Definition normalised (img : Image) : Prop :=
  has_shape img 512 512 /\ Forall (Forall (Forall unit_interval)) img.

(** An annotation file with one image, its key ending in a random number,
    and one triangle on it. *)
Definition triangle : Region :=
  {| shape_attributes :=
       Some {| all_points_x := Some [0; 2; 0]%Z; all_points_y := Some [0; 1; 1]%Z |} |}.

Definition webcam_annotations : Dict Segment :=
  [("gauge.png48213"%string, {| regions := Some [("0"%string, triangle)] |})].

Definition webcam_json (p : string) : option (Dict Segment) :=
  if String.eqb p "cam/segmentation.json" then Some webcam_annotations else None.


(** The same annotations beside an empty folder. *)
Definition empty_fs : FileSystem := {|
  listdir := fun _ => None;
  imread := fun _ => None
|}.

(** A tree whose subset [b] has masks but no image directory. *)
Definition fs_missing_subset : FileSystem := {|
  listdir := fun p =>
    if String.eqb p "data/truth" then Some ["a"; "b"]%string
    else if String.eqb p "data/images/a/" then Some ["1.png"%string]
    else if String.eqb p "data/truth/a/" then Some ["1.png"%string]
    else if String.eqb p "data/truth/b/" then Some ["1.png"%string]
    else None;
  imread := fun p => Some tiny_image
|}.


(** The calls of lines 149-152 for the images [l], numbered from [first] on. *)
Definition subplots {A} (rows columns first : nat) (l : list A) : list (PlotCall A) :=
  flat_map (fun numbered =>
              [add_subplot rows columns (fst numbered); imshow (snd numbered); axis "off"])
           (combine (seq first (List.length l)) l).

End Segmentation.

(** ** The generative model *)

Module ReGAN.

(** Keras layers with their constructor arguments; [V] is the type of the
    argument values that are not literals of the source. *)
Inductive Layer (V : Type) :=
| InputLayer (input_shape : list V)
| Conv2D (filters kernel_size : V) (padding : string)
| Conv2DTranspose (filters kernel_size : Z)
| Activation (fn : string)
| Flatten
| Dense (units : V)
| Reshape (target_shape input_shape : list V)
| BatchNormalization (momentum : Q)
| UpSampling2D
| LeakyReLU (alpha : Q)
| Dropout (rate : Q)
| AveragePooling2D.
Arguments InputLayer {V} input_shape.
Arguments Conv2D {V} filters kernel_size padding.
Arguments Conv2DTranspose {V} filters kernel_size.
Arguments Activation {V} fn.
Arguments Flatten {V}.
Arguments Dense {V} units.
Arguments Reshape {V} target_shape input_shape.
Arguments BatchNormalization {V} momentum.
Arguments UpSampling2D {V}.
Arguments LeakyReLU {V} alpha.
Arguments Dropout {V} rate.
Arguments AveragePooling2D {V}.

(** Python values stored in attributes or passed around by [train]. *)
#[warnings="-register-all"] Inductive PyVal :=
| VNone
| VInt (z : Z)
| VSequential (name : option string) (layers : list (Layer PyVal))
| VOpaque (tag : string)
| VTensor (samples : list (list Q)).

(** An instance: its attribute dictionary. *)
Abbreviation Object := (gmap string PyVal).

Definition getattr (self : Object) (name : string) : Result PyVal :=
  match self !! name with
  | Some v => Ok v
  | None => Raise (AttributeError name)
  end.

Definition _create_encoder (self : Object) : Result PyVal :=
  img_size <- getattr self "img_size" ;;
  channels <- getattr self "channels" ;;
  let encoder := [InputLayer [img_size; img_size; channels]] in
  let filters := [16; 32; 64; 128]%Z in
  encoder <-
    fold_left (fun encoder f =>
      encoder <- encoder ;;
      kernel_size <- getattr self "kernel_size" ;;
      Ok (encoder ++ [Conv2D (VInt f) kernel_size "same"; Activation "relu"]))
      filters (Ok encoder) ;;
  let encoder := encoder ++ [Flatten] in
  latent_dim <- getattr self "latent_dim" ;;
  let encoder := encoder ++ [Dense latent_dim] in
  Ok (VSequential (Some "Encoder"%string) encoder).

Definition _create_generator (self : Object) : Result PyVal :=
  noise_dim <- getattr self "noise_dim" ;;
  let generator := [Reshape [VInt 1; VInt 1; noise_dim] [noise_dim]] in
  let generator := generator ++ [Conv2DTranspose 512 4; Activation "relu"] in
  let filters := [4; 8; 16; 32; 64; 128; 256]%Z in
  let generator :=
    fold_left (fun generator f =>
      generator ++ [Conv2D (VInt f) (VInt 3) "same"; BatchNormalization (7 # 10);
                    Activation "relu"; UpSampling2D])
      (rev filters) generator in
  channels <- getattr self "channels" ;;
  let generator := generator ++ [Conv2D channels (VInt 3) "same"; Activation "sigmoid"] in
  Ok (VSequential None generator).

Definition _create_encoder_discriminator (self : Object) : Result PyVal :=
  Ok VNone.

Definition _create_image_discriminator (self : Object) : Result PyVal :=
  img_size <- getattr self "img_size" ;;
  channels <- getattr self "channels" ;;
  let discriminator := [InputLayer [img_size; img_size; channels]] in
  let filters := [4; 8; 16; 32; 64; 128; 256]%Z in
  let discriminator :=
    fold_left (fun discriminator f =>
      discriminator ++ [Conv2D (VInt f) (VInt 3) "same"; BatchNormalization (7 # 10);
                        LeakyReLU (2 # 10); Dropout (25 # 100); AveragePooling2D])
      filters discriminator in
  let discriminator :=
    discriminator ++ [Flatten; Dense (VInt 128); LeakyReLU (2 # 10); Dense (VInt 1)] in
  Ok (VSequential None discriminator).

Section Init.

(** The constructor of [tf.keras.Model], called with the keyword [name] and
    the caller's extra keywords: the attribute dictionary of the fresh
    instance, or the exception it raises. *)
Variable Model__init__ : string -> list (string * PyVal) -> Result Object.

(** [super(ReGAN, self).__init__(name="ReGAN", **kwargs)]: a keyword given
    twice is refused by the call itself. *)
Definition super__init__ (kwargs : list (string * PyVal)) : Result Object :=
  if existsb (fun kv => String.eqb (fst kv) "name") kwargs
  then Raise (TypeError "got multiple values for keyword argument 'name'")
  else Model__init__ "ReGAN" kwargs.

(** The object handed back by [ReGAN(img_size, channels, latent_dim,
    batch_size, kernel_size, **kwargs)]. *)
Definition __init__ (img_size channels latent_dim batch_size kernel_size : Z)
    (kwargs : list (string * PyVal)) : Result Object :=
  self <- super__init__ kwargs ;;
  let self := <["image_size" := VInt img_size]> self in
  let self := <["channels" := VInt channels]> self in
  let self := <["latent_dim" := VInt latent_dim]> self in
  let self := <["batch_size" := VInt batch_size]> self in
  let self := <["kernel_size" := VInt kernel_size]> self in
  encoder <- _create_encoder self ;;
  let self := <["encoder" := encoder]> self in
  generator <- _create_generator self ;;
  let self := <["generator" := generator]> self in
  encoder_discriminator <- _create_encoder_discriminator self ;;
  let self := <["encoder_discriminator" := encoder_discriminator]> self in
  image_discriminator <- _create_image_discriminator self ;;
  let self := <["image_discriminator" := image_discriminator]> self in
  Ok self.

End Init.

(** [call] is a stub: its body is [pass]. *)
Definition call (self : Object) (inputs : PyVal) : PyVal := VNone.

(** Python's [a % b] on floats, for a positive [b]. *)
Definition Qmod (a b : Q) : Q := a - b * inject_Z (Qfloor (a / b)).

Section Train.

(** An element of the dataset. *)
Variable Sample : Type.

(** The state of TensorFlow: variables, optimizer slots, random generator. *)
Variable World : Type.

(** The tape computation and the two optimizer updates of [train_step], once
    every attribute it reads has been found: the two losses. *)
Variable tape_step : Object -> list Sample -> World -> Result (Q * Q) * World.

(** [tf.random.normal(shape)]. *)
Variable random_normal : list PyVal -> World -> Result PyVal * World.

(** The state threaded through [train]: the world, and the batches handed to
    [train_step] so far, in call order. *)
Record State := { world : World; steps : list (list Sample) }.

Definition M (A : Type) : Type := State -> Result A * State.

Definition ret {A} (a : A) : M A := fun st => (Ok a, st).

Definition raise {A} (e : PyError) : M A := fun st => (Raise e, st).

Definition mbind {A B} (m : M A) (k : A -> M B) : M B :=
  fun st =>
    match m st with
    | (Ok a, st') => k a st'
    | (Raise e, st') => (Raise e, st')
    end.

Definition lift {A} (r : Result A) : M A := fun st => (r, st).

Definition in_world {A} (f : World -> Result A * World) : M A :=
  fun st => let (r, w) := f (world st) in (r, {| world := w; steps := steps st |}).

Definition record_step (batch : list Sample) : M unit :=
  fun st => (Ok tt, {| world := world st; steps := steps st ++ [batch] |}).

Notation "x <~ m ;; k" := (mbind m (fun x => k))
  (at level 60, m at next level, right associativity).

Definition train_step (self : Object) (images : list Sample) : M (Q * Q) :=
  _ <~ record_step images ;;
  _ <~ lift (getattr self "batch_size") ;;
  _ <~ lift (getattr self "noise_dim") ;;
  _ <~ lift (getattr self "generator") ;;
  _ <~ lift (getattr self "discriminator") ;;
  _ <~ lift (getattr self "gen_loss") ;;
  _ <~ lift (getattr self "disc_loss") ;;
  _ <~ lift (getattr self "gen_optimizer") ;;
  _ <~ lift (getattr self "disc_optimizer") ;;
  in_world (tape_step self images).

Definition Qmin (a b : Q) : Q := if Qle_bool a b then a else b.

(** Lines 117-123: [for i in range(len(dataset))], from index [i] on, with
    the rest of the dataset still to visit. *)
Fixpoint batch_loop (self : Object) (batch_size : Z) (i : Z) (rest : list Sample)
    (next_batch : list Sample) (min_gen_loss min_disc_loss : Q) : M (Q * Q) :=
  match rest with
  | [] => ret (min_gen_loss, min_disc_loss)
  | sample :: rest' =>
      let next_batch := next_batch ++ [sample] in
      if (batch_size =? 0)%Z then raise ZeroDivisionError
      else if (i mod batch_size =? 0)%Z then
        losses <~ train_step self next_batch ;;
        let min_gen_loss := Qmin min_gen_loss (fst losses) in
        let min_disc_loss := Qmin min_disc_loss (snd losses) in
        batch_loop self batch_size (i + 1) rest' [] min_gen_loss min_disc_loss
      else batch_loop self batch_size (i + 1) rest' next_batch min_gen_loss min_disc_loss
  end.

(** The test [epoch % (epochs / 10) == 0], the quotient and the remainder
    being taken exactly. *)
Definition visualization_due (epoch epochs : Z) : bool :=
  Qeq_bool (Qmod (inject_Z epoch) (inject_Z epochs / 10)) 0.

(** Lines 110-135: [for epoch in range(epochs)], over the epochs still to run. *)
Fixpoint epoch_loop (self : Object) (dataset : list Sample) (epochs batch_size : Z)
    (range : list Z) (generated_images : list PyVal) : M (list PyVal) :=
  match range with
  | [] => ret generated_images
  | epoch :: range' =>
      _ <~ batch_loop self batch_size 0 dataset [] 999999 999999 ;;
      generated_images <~
        (if visualization_due epoch epochs then
           noise_dim <~ lift (getattr self "noise_dim") ;;
           noise <~ in_world (random_normal [VInt 16; noise_dim]) ;;
           ret (generated_images ++ [call self noise])
         else ret generated_images) ;;
      epoch_loop self dataset epochs batch_size range' generated_images
  end.

Definition train (self : Object) (dataset : list Sample) (epochs batch_size : Z)
  : M (list PyVal) :=
  let generated_images := [] in
  epoch_loop self dataset epochs batch_size
    (map Z.of_nat (seq 0 (Z.to_nat epochs))) generated_images.

End Train.

(** *** Vocabulary of the properties and sample inputs *)

(** The attribute assignments of lines 19-23 on a fresh instance. *)
Definition assign_arguments (base : Object)
    (img_size channels latent_dim batch_size kernel_size : Z) : Object :=
  <["kernel_size" := VInt kernel_size]>
    (<["batch_size" := VInt batch_size]>
      (<["latent_dim" := VInt latent_dim]>
        (<["channels" := VInt channels]>
          (<["image_size" := VInt img_size]> base)))).

(** The instance [tf.keras.Model.__init__] hands back has no attribute of
    the two names the builders look for. *)
Definition keras_base (Model__init__ : string -> list (string * PyVal) -> Result Object)
  : Prop :=
  forall name kwargs base,
    Model__init__ name kwargs = Ok base ->
    base !! "img_size" = None /\ base !! "noise_dim" = None.

(** A base constructor accepting every keyword. *)
Definition plain_Model__init__ (name : string) (kwargs : list (string * PyVal))
  : Result Object :=
  Ok {[ "name" := VOpaque name ]}.

Section TrainVocabulary.

Variable Sample : Type.
Variable World : Type.
Variable tape_step : Object -> list Sample -> World -> Result (Q * Q) * World.

(** The batches of one pass over the dataset and the samples left over at
    its end, following the loop of lines 117-123 without its effects. *)
Fixpoint batches_from (batch_size i : Z) (rest next_batch : list Sample)
  : list (list Sample) * list Sample :=
  match rest with
  | [] => ([], next_batch)
  | sample :: rest' =>
      let next_batch := next_batch ++ [sample] in
      if (i mod batch_size =? 0)%Z
      then let (later, left) := batches_from batch_size (i + 1) rest' [] in
           (next_batch :: later, left)
      else batches_from batch_size (i + 1) rest' next_batch
  end.

(** Every call of [train_step] on this instance returns. *)
Definition steps_return (self : Object) : Prop :=
  forall images st, exists losses st',
    train_step Sample World tape_step self images st = (Ok losses, st').

End TrainVocabulary.

(** An instance on which every attribute read by [train_step] has been set
    from outside the class, and a backend whose step always succeeds. *)
Definition wired_instance : Object :=
  <["disc_optimizer" := VOpaque "Adam"]>
    (<["gen_optimizer" := VOpaque "Adam"]>
      (<["disc_loss" := VOpaque "disc_loss"]>
        (<["gen_loss" := VOpaque "gen_loss"]>
          (<["discriminator" := VSequential None []]>
            (<["generator" := VSequential None []]>
              (<["noise_dim" := VInt 4096]>
                (assign_arguments ∅ 512 1 4096 128 5))))))).

Definition constant_step (self : Object) (images : list nat) (w : unit)
  : Result (Q * Q) * unit :=
  (Ok (1, 1), w).

Definition zero_noise (shape : list PyVal) (w : unit) : Result PyVal * unit :=
  (Ok (VTensor []), w).

(** The instance as the assignments of [__init__] leave it. *)
Definition assigned_instance : Object := assign_arguments ∅ 512 1 4096 128 5.

(** *** Configuration and summary *)

Section Config.

(** [get_config] of [tf.keras.Model], called through [super]: the
    dictionary it returns for the instance, or the exception it raises. *)
Variable Model_get_config : Object -> Result (gmap string PyVal).


End Config.

Section Summary.

(** Whether an object known by its tag only has a [summary] method. *)
Variable opaque_summary : string -> bool.





End Summary.

(** *** Shapes of the three networks *)

(** A shape given by the attributes of the instance: positive integers. *)
Fixpoint dimensions (shape : list PyVal) : option (list Z) :=
  match shape with
  | [] => Some []
  | VInt n :: shape' =>
      match dimensions shape' with
      | Some ns => if (1 <=? n)%Z then Some (n :: ns) else None
      | None => None
      end
  | _ :: _ => None
  end.

Definition product (shape : list Z) : Z := fold_right Z.mul 1%Z shape.

(** The input shape the first layer of a [Sequential] declares. *)
Definition declared_input (l : Layer PyVal) : option (list Z) :=
  match l with
  | InputLayer input_shape => dimensions input_shape
  | Reshape _ input_shape => dimensions input_shape
  | _ => None
  end.

(** The output shape Keras computes for a layer on an input of shape [s]
    (without the batch axis), with the defaults of the layer: stride 1 for
    the convolutions, no padding for the transposed convolution, a 2 x 2
    window for up-sampling and for pooling; [None] where Keras refuses the
    layer on that input. *)
Definition layer_output (l : Layer PyVal) (s : list Z) : option (list Z) :=
  match l, s with
  | InputLayer input_shape, _ =>
      match dimensions input_shape with
      | Some declared => if list_eq_dec Z.eq_dec declared s then Some s else None
      | None => None
      end
  | Reshape target_shape _, _ =>
      match dimensions target_shape with
      | Some target => if (product target =? product s)%Z then Some target else None
      | None => None
      end
  | Conv2D (VInt filters) (VInt kernel_size) padding, [h; w; _] =>
      if ((1 <=? filters) && (1 <=? kernel_size))%Z
      then if String.eqb padding "same" then Some [h; w; filters]
           else if String.eqb padding "valid"
           then if ((kernel_size <=? h) && (kernel_size <=? w))%Z
                then Some [h - kernel_size + 1; w - kernel_size + 1; filters]%Z
                else None
           else None
      else None
  | Conv2DTranspose filters kernel_size, [h; w; _] =>
      if ((1 <=? filters) && (1 <=? kernel_size))%Z
      then Some [h + kernel_size - 1; w + kernel_size - 1; filters]%Z else None
  | UpSampling2D, [h; w; c] => Some [2 * h; 2 * w; c]%Z
  | AveragePooling2D, [h; w; c] =>
      if ((2 <=? h) && (2 <=? w))%Z then Some [h / 2; w / 2; c]%Z else None
  | Flatten, _ => Some [product s]
  | Dense (VInt units), _ :: _ =>
      if (1 <=? units)%Z then Some (removelast s ++ [units]) else None
  | Activation _, _ | BatchNormalization _, _ | LeakyReLU _, _ | Dropout _, _ => Some s
  | _, _ => None
  end.

(** The output shape of a [Sequential], layer after layer. *)
Definition output_shape (layers : list (Layer PyVal)) : option (list Z) :=
  match layers with
  | [] => None
  | first :: _ =>
      fold_left (fun s l => match s with
                            | Some s => layer_output l s
                            | None => None
                            end)
                layers (declared_input first)
  end.

(** *** Vocabulary of the further properties *)




End ReGAN.

(** * Properties *)

Module SegmentationFacts.
Import Segmentation.

(** ** The Dice loss *)













(** The same two masks in binary32: the loss of identical masks is +0.0 and
    the loss of disjoint masks rounds to 1.0. *)
Example dice_loss_binary32_identical :
  _dice_loss (as_float32 mask_left) (as_float32 mask_left) = S754_zero false.
Proof. vm_compute. reflexivity. Qed.

Example dice_loss_binary32_disjoint :
  _dice_loss (as_float32 mask_left) (as_float32 mask_right) = binary32.of_Q 1
  /\ binary32.of_Q 1 = S754_finite false 8388608 (-23).
Proof. split; vm_compute; reflexivity. Qed.

(** ** Polygon rasterisation *)

Section GetMask.
Local Open Scope Z_scope.
Import cv2.

Lemma mapi_length {A B} (f : Z -> A -> B) l : forall i, List.length (mapi f i l) = List.length l.
Proof. induction l; intros; simpl; auto. Qed.

Lemma mapi_nth {A B} (f : Z -> A -> B) l :
  forall i n, nth_error (mapi f i l) n = option_map (f (i + Z.of_nat n)) (nth_error l n).
Proof.
  induction l as [|a l IH]; intros i [|n]; simpl; auto.
  - now rewrite Z.add_0_r.
  - rewrite IH. do 2 f_equal. lia.
Qed.

Lemma mapi_Forall {A B} (P : A -> Prop) (Q : B -> Prop) (f : Z -> A -> B) l :
  (forall i a, P a -> Q (f i a)) -> Forall P l -> forall i, Forall Q (mapi f i l).
Proof. intros Hf H. induction H; intros; simpl; constructor; auto. Qed.

Lemma mapi_repeat {A B} (f : Z -> A -> B) a b n :
  forall i, (forall k, i <= k < i + Z.of_nat n -> f k a = b) ->
  mapi f i (repeat a n) = repeat b n.
Proof.
  induction n as [|n IH]; intros i H; simpl; auto.
  rewrite H by lia. f_equal. apply IH. intros; apply H; lia.
Qed.

Lemma fillPoly_shape m v c m' h w :
  fillPoly m v c = Some m' -> has_shape m h w -> has_shape m' h w.
Proof.
  unfold fillPoly. destruct v; [discriminate|]. intros [= <-] [Hl Hr]. split.
  - now rewrite mapi_length.
  - eapply mapi_Forall; [|exact Hr]. cbv beta. intros i row <-. apply mapi_length.
Qed.

Lemma fillPoly_two_level m v m' :
  fillPoly m v 255 = Some m' ->
  Forall (Forall two_level) m -> Forall (Forall two_level) m'.
Proof.
  unfold fillPoly. destruct v; [discriminate|]. intros [= <-] H.
  eapply mapi_Forall; [|exact H]. cbv beta. intros y row Hrow.
  eapply mapi_Forall; [|exact Hrow]. cbv beta. intros x px [-> | ->];
    destruct (covered _ _ _); simpl; unfold two_level; auto.
Qed.

Lemma np_zeros_shape h w : has_shape (np_zeros (h, w)) h w.
Proof.
  unfold np_zeros, has_shape; simpl. split; [apply repeat_length|].
  apply Forall_forall. intros r Hr. apply repeat_spec in Hr. subst. apply repeat_length.
Qed.

Lemma np_zeros_two_level s : Forall (Forall two_level) (np_zeros s).
Proof.
  unfold np_zeros. apply Forall_forall. intros r Hr. apply repeat_spec in Hr. subst.
  apply Forall_forall. intros p Hp. apply repeat_spec in Hp. subst. now left.
Qed.

Lemma get_mask_invariant labels h w :
  Forall has_points labels ->
  forall m0, has_shape m0 h w -> Forall (Forall two_level) m0 ->
  exists m, fold_left step labels (Some m0) = Some m
            /\ has_shape m h w /\ Forall (Forall two_level) m.
Proof.
  induction 1 as [|l labels [Hx Hy] _ IH]; intros m0 Hs Ht; simpl.
  - eauto.
  - destruct (fillPoly m0 (combine (fst l) (snd l)) 255) as [m1|] eqn:E.
    + apply IH; [eapply fillPoly_shape | eapply fillPoly_two_level]; eauto.
    + unfold fillPoly in E. destruct (fst l), (snd l); simpl in E; congruence.
Qed.

(** Painting one contour on the zero canvas. *)
Lemma get_mask_single l h w :
  combine (fst l) (snd l) <> [] ->
  _get_mask [l] (h, w) =
  Some (mapi (fun y row =>
          mapi (fun x px => if covered (combine (fst l) (snd l)) x y
                            then put 255 px else px) 0 row) 0 (np_zeros (h, w))).
Proof.
  intros Hne. unfold _get_mask; simpl. unfold fillPoly.
  destruct (combine (fst l) (snd l)); [congruence|reflexivity].
Qed.

(** Settle every integer test that linear arithmetic decides. *)
Ltac settle_tests :=
  repeat match goal with
  | |- context [(?a <=? ?b)%Z] =>
      first [ replace (a <=? b)%Z with true by (symmetry; apply Z.leb_le; lia)
            | replace (a <=? b)%Z with false by (symmetry; apply Z.leb_gt; lia) ]
  | |- context [(?a <? ?b)%Z] =>
      first [ replace (a <? b)%Z with true by (symmetry; apply Z.ltb_lt; lia)
            | replace (a <? b)%Z with false by (symmetry; apply Z.ltb_ge; lia) ]
  | |- context [(?a =? ?b)%Z] =>
      first [ replace (a =? b)%Z with true by (symmetry; apply Z.eqb_eq; lia)
            | replace (a =? b)%Z with false by (symmetry; apply Z.eqb_neq; lia) ]
  end.

Lemma shiftr_shiftl a : Z.shiftr (Z.shiftl a XY_SHIFT) XY_SHIFT = a.
Proof. unfold XY_SHIFT. rewrite Z.shiftr_shiftl_l by lia. now rewrite Z.sub_diag. Qed.

Lemma Line_horizontal a b y x :
  Z.min a b <= x <= Z.max a b -> Line (a, y) (b, y) x y = true.
Proof.
  intros H. unfold Line. cbn [fst snd].
  destruct (Z.ltb_spec b a); cbn [fst snd]; rewrite Z.sub_diag;
    change (Z.abs 0) with 0; change (Z.sgn 0) with 0;
    rewrite Z.mul_0_l, Z.add_0_r; settle_tests; reflexivity.
Qed.

Lemma Line_point p x y :
  Line p p x y = (x =? fst p) && (y =? snd p).
Proof.
  unfold Line. rewrite Z.ltb_irrefl, !Z.sub_diag.
  change (Z.abs 0) with 0; change (Z.sgn 0) with 0.
  rewrite Z.mul_0_l, Z.add_0_r. change (0 <=? 0) with true. cbv iota.
  destruct (Z.eqb_spec y (snd p)); [rewrite andb_true_r | now rewrite !andb_false_r].
  destruct (Z.eqb_spec x (fst p)); settle_tests; try reflexivity.
  destruct (Z.leb_spec (fst p) x), (Z.leb_spec x (fst p)); try reflexivity; lia.
Qed.

Lemma rectangle_covered h w x y :
  0 <= x < Z.of_nat w -> 0 <= y < Z.of_nat h ->
  covered (combine (fst (rectangle h w)) (snd (rectangle h w))) x y = true.
Proof.
  intros Hx Hy. unfold covered, rectangle.
  set (W := Z.of_nat w) in *. set (H := Z.of_nat h) in *.
  cbn [fst snd combine closed_pairs List.last existsb].
  destruct (Z.eq_dec y (H - 1)) as [->|Hny].
  - (* bottom row: the outline segment from (W-1, H-1) to (0, H-1) *)
    rewrite (Line_horizontal (W - 1) 0 (H - 1) x) by lia.
    now rewrite !orb_true_r.
  - (* any other row: the span between the two vertical edges *)
    apply orb_true_intro; right.
    unfold CollectPolyEdges, FillEdgeCollection.
    cbn [fst snd combine closed_pairs List.last flat_map edge_of app].
    settle_tests. cbv iota.
    cbn [app List.length Nat.ltb Nat.leb filter]. unfold active. cbn [y0 y1].
    settle_tests.
    cbn [andb map]. unfold x_at. cbn [ex edx y0].
    rewrite !Z.sub_diag. rewrite Z.quot_0_l by lia.
    rewrite !Z.mul_0_r, !Z.add_0_r.
    unfold sort; cbn [fold_right insert].
    assert (E : Z.shiftl 0 XY_SHIFT = 0) by reflexivity. rewrite E.
    assert (L : 0 <= Z.shiftl (W - 1) XY_SHIFT) by (apply Z.shiftl_nonneg; lia).
    settle_tests. cbv iota.
    cbn [in_spans]. rewrite shiftr_shiftl.
    change (Z.shiftr 0 XY_SHIFT) with 0.
    settle_tests. reflexivity.
Qed.

Lemma last_repeat {A} (a : A) k : last (repeat a k) a = a.
Proof.
  induction k as [|k IH]; [reflexivity|]. cbn [repeat]. destruct k; [reflexivity|exact IH].
Qed.

Lemma combine_shifted_repeat {A} (a : A) k :
  combine (a :: repeat a k) (repeat a k) = repeat (a, a) k.
Proof. induction k as [|k IH]; [reflexivity|]. cbn [repeat combine]. now f_equal. Qed.

Lemma closed_pairs_repeat (p : Point) n :
  closed_pairs (repeat p (S n)) = repeat (p, p) (S n).
Proof.
  transitivity (combine (last (repeat p (S n)) p :: repeat p (S n)) (repeat p (S n))).
  - reflexivity.
  - rewrite last_repeat. apply combine_shifted_repeat.
Qed.

Lemma combine_repeat {A B} (a : A) (b : B) n :
  combine (repeat a n) (repeat b n) = repeat (a, b) n.
Proof. induction n; simpl; congruence. Qed.

Lemma point_covered (p : Point) n x y :
  covered (repeat p (S n)) x y = (x =? fst p) && (y =? snd p).
Proof.
  unfold covered, CollectPolyEdges. rewrite closed_pairs_repeat.
  assert (E : flat_map edge_of (repeat (p, p) (S n)) = []).
  { generalize (S n) as k. induction k as [|k IH]; [reflexivity|].
    cbn [repeat flat_map edge_of]. now rewrite Z.eqb_refl. }
  rewrite E. unfold FillEdgeCollection. cbn [List.length Nat.ltb Nat.leb].
  rewrite orb_false_r. clear E.
  rewrite <- Line_point.
  induction n as [|n IH].
  - cbn [repeat existsb fst snd]. apply orb_false_r.
  - change (repeat (p, p) (S (S n))) with ((p, p) :: repeat (p, p) (S n)).
    cbn [existsb]. rewrite IH. cbn [fst snd]. apply orb_diag.
Qed.

Lemma nth_error_repeat_lt {A} (a : A) n k : (k < n)%nat -> nth_error (repeat a n) k = Some a.
Proof.
  revert k. induction n as [|n IH]; intros [|k] H; simpl; auto; try lia. apply IH. lia.
Qed.

Lemma point_mask (p : Point) n h w x y :
  (x < w)%nat -> (y < h)%nat ->
  exists m, _get_mask [(repeat (fst p) (S n), repeat (snd p) (S n))] (h, w) = Some m
    /\ pixel m x y = Some (if (Z.of_nat x =? fst p) && (Z.of_nat y =? snd p)
                           then [255%Q] else [0%Q]).
Proof.
  intros Hx Hy. eexists. split.
  - apply get_mask_single. discriminate.
  - unfold pixel, np_zeros. cbn [fst snd].
    rewrite combine_repeat, mapi_nth, nth_error_repeat_lt by assumption.
    cbn [option_map]. rewrite mapi_nth, nth_error_repeat_lt by assumption.
    cbn [option_map]. rewrite <- surjective_pairing, point_covered, !Z.add_0_l.
    now destruct (_ && _).
Qed.

Lemma rectangle_mask h w :
  _get_mask [rectangle h w] (h, w) = Some (repeat (repeat [255%Q] w) h).
Proof.
  rewrite get_mask_single by discriminate. f_equal. unfold np_zeros. cbn [fst snd].
  apply mapi_repeat. intros y Hy. apply mapi_repeat. intros x Hx.
  change (combine _ _) with
    (combine (fst (rectangle h w)) (snd (rectangle h w))).
  now rewrite rectangle_covered by lia.
Qed.

(** C2, the degenerate case as claimed fails: a polygon whose three vertices
    coincide has zero area, yet its outline is drawn and the mask is no
    longer the zero canvas. *)
Lemma get_mask_degenerate_polygon_painted :
  _get_mask [([1; 1; 1], [1; 1; 1])] (3, 3)%nat <> Some (np_zeros (3, 3)%nat)
  /\ _get_mask [([1; 1; 1], [1; 1; 1])] (3, 3)%nat
     = Some [[[0%Q]; [0%Q]; [0%Q]]; [[0%Q]; [255%Q]; [0%Q]]; [[0%Q]; [0%Q]; [0%Q]]].
Proof. split; [|reflexivity]. vm_compute. discriminate. Qed.

(** C2 (amended). [_get_mask] starts from the zero canvas of the given shape
    and hands every polygon to [fillPoly] with the value 255: the mask keeps
    the shape, with one channel holding 0 or 255.  The rectangle through the
    four corners of the image yields the uniform mask 255.  A polygon whose
    vertices all coincide yields 255 at that pixel (when it lies on the
    canvas) and 0 everywhere else. *)
Theorem get_mask_rasterization (h w : nat) (labels : list Label) (p : Point) (n : nat) :
  Forall has_points labels ->
  _get_mask [] (h, w) = Some (np_zeros (h, w))
  /\ (exists m, _get_mask labels (h, w) = Some m
                /\ has_shape m h w /\ Forall (Forall two_level) m)
  /\ _get_mask [rectangle h w] (h, w) = Some (repeat (repeat [255%Q] w) h)
  /\ (forall x y, (x < w)%nat -> (y < h)%nat ->
      exists m, _get_mask [(repeat (fst p) (S n), repeat (snd p) (S n))] (h, w) = Some m
        /\ pixel m x y = Some (if (Z.of_nat x =? fst p) && (Z.of_nat y =? snd p)
                               then [255%Q] else [0%Q])).
Proof.
  intros Hl. split; [reflexivity|]. split; [|split].
  - apply get_mask_invariant; auto using np_zeros_shape, np_zeros_two_level.
  - apply rectangle_mask.
  - intros x y Hx Hy. now apply point_mask.
Qed.

Lemma get_mask_rasterization_witness :
  _get_mask [] (2, 3)%nat = Some (np_zeros (2, 3)%nat)
  /\ (exists m, _get_mask [([0; 2; 0], [0; 1; 1])] (2, 3)%nat = Some m
                /\ has_shape m 2 3 /\ Forall (Forall two_level) m)
  /\ _get_mask [rectangle 2 3] (2, 3)%nat = Some (repeat (repeat [255%Q] 3) 2)
  /\ (forall x y, (x < 3)%nat -> (y < 2)%nat ->
      exists m, _get_mask [(repeat 1 3, repeat 1 3)] (2, 3)%nat = Some m
        /\ pixel m x y = Some (if (Z.of_nat x =? 1) && (Z.of_nat y =? 1)
                               then [255%Q] else [0%Q])).
Proof.
  apply (get_mask_rasterization 2 3 [([0; 2; 0], [0; 1; 1])] (1, 1) 2).
  constructor; [split; discriminate | constructor].
Defined.

End GetMask.

(** ** Resize, cast and normalise *)

Section ConvertImageFacts.

Lemma cast_uint8_range q : (0 <= cast_uint8 q <= 255)%Z.
Proof. unfold cast_uint8. pose proof (Z.mod_pos_bound (Qtrunc q) 256). lia. Qed.

Lemma normalised_range q : unit_interval (inject_Z (cast_uint8 q) / 255).
Proof.
  pose proof (cast_uint8_range q) as [Hlo Hhi].
  rewrite Zle_Qle in Hlo, Hhi. change (inject_Z 255) with 255 in Hhi.
  change (inject_Z 0) with 0 in Hlo.
  split.
  - apply Qle_shift_div_l; lra.
  - apply Qle_shift_div_r; lra.
Qed.

Lemma map_pixels_shape f img h w : has_shape img h w -> has_shape (map_pixels f img) h w.
Proof.
  unfold has_shape, map_pixels. intros [Hl Hr]. split.
  - now rewrite length_map.
  - apply Forall_map. eapply Forall_impl; [|exact Hr].
    intros row. cbv beta. now rewrite length_map.
Qed.

Lemma map_pixels_range (P : Q -> Prop) f img :
  (forall v, P (f v)) -> Forall (Forall (Forall P)) (map_pixels f img).
Proof.
  intros Hf. unfold map_pixels.
  apply Forall_map, Forall_forall. intros row _.
  apply Forall_map, Forall_forall. intros px _.
  apply Forall_map, Forall_forall. intros v _. apply Hf.
Qed.

Lemma nat_Q_le a b : (a <= b)%nat -> tf_image.nat_Q a <= tf_image.nat_Q b.
Proof. intros H. unfold tf_image.nat_Q. rewrite <- Zle_Qle. lia. Qed.

Lemma nat_Q_mul a b : tf_image.nat_Q (a * b) == tf_image.nat_Q a * tf_image.nat_Q b.
Proof. unfold tf_image.nat_Q. now rewrite Nat2Z.inj_mul, inject_Z_mult. Qed.

Lemma nat_Q_pos a : (1 <= a)%nat -> 0 < tf_image.nat_Q a.
Proof.
  intros H. unfold tf_image.nat_Q. change 0 with (inject_Z 0). rewrite <- Zlt_Qlt. lia.
Qed.

Lemma Qmax_case (P : Q -> Prop) a b : P a -> P b -> P (tf_image.Qmax a b).
Proof. intros Ha Hb. unfold tf_image.Qmax. now destruct (Qle_bool a b). Qed.

(** Scaling an image that fits leaves at least one row. *)
Lemma scaled_size_positive (a b ta tb : nat) :
  (1 <= a)%nat -> (1 <= b)%nat -> (1 <= ta)%nat -> (1 <= tb)%nat ->
  (b <= a * tb)%nat ->
  (1 <= Qfloor (tf_image.nat_Q a
                / tf_image.Qmax (tf_image.nat_Q b / tf_image.nat_Q tb)
                                (tf_image.nat_Q a / tf_image.nat_Q ta)))%Z.
Proof.
  intros Ha Hb Hta Htb Hfit.
  pose proof (nat_Q_pos a Ha) as Pa. pose proof (nat_Q_pos b Hb) as Pb.
  pose proof (nat_Q_pos ta Hta) as Pta. pose proof (nat_Q_pos tb Htb) as Ptb.
  change 1%Z with (Qfloor 1). apply Qfloor_resp_le.
  apply (Qmax_case (fun r => 1 <= tf_image.nat_Q a / r)).
  - apply Qle_shift_div_l; [apply Qlt_shift_div_l; lra|].
    rewrite Qmult_1_l. apply Qle_shift_div_r; [exact Ptb|].
    rewrite <- nat_Q_mul. now apply nat_Q_le.
  - apply Qle_shift_div_l; [apply Qlt_shift_div_l; lra|].
    rewrite Qmult_1_l. apply Qle_shift_div_r; [exact Pta|].
    rewrite <- nat_Q_mul. apply nat_Q_le. nia.
Qed.

Lemma tf_resize_with_pad_contract : resize_contract tf_image.resize_with_pad.
Proof.
  intros img h w th tw (Hh & Hw & [Hl Hr] & (c & Hc & Hch) & _) Hth Htw [F1 F2].
  destruct img as [|row img]; [simpl in Hl; lia|].
  apply Forall_cons_iff in Hr as [Hrow _]. apply Forall_cons_iff in Hch as [Hpx _].
  destruct row as [|px row]; [simpl in Hrow; lia|].
  apply Forall_cons_iff in Hpx as [Hpx _].
  unfold tf_image.resize_with_pad. cbn [hd]. rewrite Hl, Hrow, Hpx.
  replace ((h =? 0)%nat || (w =? 0)%nat || (c =? 0)%nat) with false
    by (symmetry; rewrite !orb_false_iff, !Nat.eqb_neq; lia).
  replace ((th =? 0)%nat || (tw =? 0)%nat) with false
    by (symmetry; rewrite !orb_false_iff, !Nat.eqb_neq; lia).
  cbv zeta.
  pose proof (scaled_size_positive h w th tw Hh Hw Hth Htw F1) as Ph.
  assert (Pw : (1 <= Qfloor (tf_image.nat_Q w
                 / tf_image.Qmax (tf_image.nat_Q w / tf_image.nat_Q tw)
                                 (tf_image.nat_Q h / tf_image.nat_Q th)))%Z).
  { pose proof (scaled_size_positive w h tw th Hw Hh Htw Hth F2) as P.
    unfold tf_image.Qmax in *.
    destruct (Qle_bool (tf_image.nat_Q w / tf_image.nat_Q tw)
                       (tf_image.nat_Q h / tf_image.nat_Q th)) eqn:E1;
    destruct (Qle_bool (tf_image.nat_Q h / tf_image.nat_Q th)
                       (tf_image.nat_Q w / tf_image.nat_Q tw)) eqn:E2; auto.
    - apply Qle_bool_iff in E1, E2.
      assert (E : tf_image.nat_Q h / tf_image.nat_Q th
                  == tf_image.nat_Q w / tf_image.nat_Q tw) by lra.
      now rewrite (Qfloor_comp _ _ (Qdiv_comp _ _ (Qeq_refl _) _ _ E)).
    - exfalso.
      assert (N : ~ tf_image.nat_Q w / tf_image.nat_Q tw
                    <= tf_image.nat_Q h / tf_image.nat_Q th)
        by (rewrite <- Qle_bool_iff; congruence).
      apply Qnot_le_lt, Qlt_le_weak in N. apply Qle_bool_iff in N. congruence. }
  match goal with
  | |- context [if ?t then _ else _] =>
      replace t with false by (symmetry; rewrite orb_false_iff, !Z.leb_gt; lia)
  end.
  eexists. split; [reflexivity|]. unfold has_shape. split.
  - now rewrite length_map, length_seq.
  - apply Forall_map, Forall_forall. intros oy _. now rewrite length_map, length_seq.
Qed.




End ConvertImageFacts.

(** ** The folder-pair loader *)

Lemma string_leb_trans a : forall b c,
  String.leb a b = true -> String.leb b c = true -> String.leb a c = true.
Proof.
  unfold String.leb.
  induction a as [|x a IH]; intros [|y b] [|z c]; simpl; try congruence.
  unfold Ascii.compare.
  destruct (N.compare_spec (N_of_ascii x) (N_of_ascii y)) as [E1|L1|G1];
  destruct (N.compare_spec (N_of_ascii y) (N_of_ascii z)) as [E2|L2|G2];
  destruct (N.compare_spec (N_of_ascii x) (N_of_ascii z)) as [E3|L3|G3];
    try congruence; try lia; auto.
  apply IH.
Qed.

Lemma insert_sorted_permutation a l : Permutation (a :: l) (insert_sorted a l).
Proof.
  induction l as [|b l IH]; cbn [insert_sorted]; [reflexivity|].
  destruct (String.leb a b); [reflexivity|].
  eapply Permutation_trans; [apply perm_swap|]. now constructor.
Qed.

Lemma sorted_permutation l : Permutation l (sorted l).
Proof.
  induction l as [|a l IH]; [reflexivity|]. cbn [sorted fold_right].
  eapply Permutation_trans; [|apply insert_sorted_permutation]. now constructor.
Qed.

Lemma insert_sorted_ascending a l : ascending l -> ascending (insert_sorted a l).
Proof.
  induction 1 as [|b l Hl IH Hb]; cbn [insert_sorted].
  - repeat constructor.
  - destruct (String.leb a b) eqn:E.
    + constructor; [now constructor|]. constructor; [exact E|].
      eapply Forall_impl; [|exact Hb]. intros c Hc. eapply string_leb_trans; eauto.
    + constructor; [exact IH|].
      assert (Hba : String.leb b a = true)
        by (destruct (String.leb_total a b); congruence).
      eapply Permutation_Forall; [apply insert_sorted_permutation|]. now constructor.
Qed.

Lemma sorted_ascending l : ascending (sorted l).
Proof.
  induction l as [|a l IH]; [constructor|]. now apply insert_sorted_ascending.
Qed.

Lemma ascending_unique l1 : forall l2,
  ascending l1 -> ascending l2 -> Permutation l1 l2 -> l1 = l2.
Proof.
  induction l1 as [|a l1 IH]; intros l2 H1 H2 HP.
  - apply Permutation_nil in HP. now subst.
  - destruct l2 as [|b l2]; [apply Permutation_sym, Permutation_nil in HP; discriminate|].
    apply StronglySorted_inv in H1 as [H1 Ha], H2 as [H2 Hb].
    assert (a = b) as <-.
    { assert (Ia : In a (b :: l2)) by (eapply Permutation_in; [exact HP | now left]).
      assert (Ib : In b (a :: l1))
        by (eapply Permutation_in; [apply Permutation_sym, HP | now left]).
      destruct Ia as [<-|Ia]; [reflexivity|]. destruct Ib as [->|Ib]; [reflexivity|].
      rewrite Forall_forall in Ha, Hb. apply String.leb_antisym; auto. }
    f_equal. apply IH; auto. eapply Permutation_cons_inv; eauto.
Qed.

Lemma sorted_of_permutation l1 l2 : Permutation l1 l2 -> sorted l1 = sorted l2.
Proof.
  intros HP. apply ascending_unique; auto using sorted_ascending.
  eapply Permutation_trans; [apply Permutation_sym, sorted_permutation|].
  eapply Permutation_trans; [exact HP | apply sorted_permutation].
Qed.

Lemma mapM_ok {A B} (f : A -> Result B) (g : A -> B) l :
  (forall a, In a l -> f a = Ok (g a)) -> mapM f l = Ok (map g l).
Proof.
  induction l as [|a l IH]; intros H; simpl; [reflexivity|].
  rewrite (H a) by now left. simpl. rewrite IH by (intros; apply H; now right).
  reflexivity.
Qed.

Section LoaderFacts.

Variable resize_with_pad : Image -> nat -> nat -> Result Image.
Variable fs : FileSystem.
Variables images_path truth_path : string.
Variables images truth : string -> list string.

Abbreviation image_at := (image_at resize_with_pad fs).
Abbreviation mask_at := (mask_at resize_with_pad fs).
Abbreviation readable := (readable resize_with_pad fs).
Abbreviation images_dir := (images_dir images_path).
Abbreviation truth_dir := (truth_dir truth_path).
Abbreviation loadable :=
  (loadable resize_with_pad fs images_path truth_path images truth).
Abbreviation image_files := (image_files images_path images).
Abbreviation truth_files := (truth_files truth_path truth).

Lemma load_image_readable p : readable p -> load_image resize_with_pad fs p = Ok (image_at p).
Proof.
  intros (img & resized & Ei & Er). unfold load_image, Segmentation.image_at.
  now rewrite Ei, Er.
Qed.

Lemma load_mask_readable p : readable p -> load_mask resize_with_pad fs p = Ok (mask_at p).
Proof.
  intros H. unfold load_mask. now rewrite load_image_readable.
Qed.

Lemma load_dirs_ok dirs : forall x_train y_train,
  Forall loadable dirs ->
  load_dirs resize_with_pad fs images_path truth_path dirs x_train y_train
  = Ok (x_train ++ map image_at (image_files dirs),
        y_train ++ map mask_at (truth_files dirs)).
Proof.
  induction dirs as [|dir dirs IH]; intros x_train y_train H.
  - simpl. now rewrite !app_nil_r.
  - apply Forall_cons_iff in H as [(Hi & Ht & Ri & Rt) H].
    cbn [load_dirs]. fold (images_dir dir) (truth_dir dir).
    unfold os_listdir. rewrite Hi. cbn [bind].
    rewrite (mapM_ok _ (fun name => image_at (images_dir dir ++ name))).
    2:{ intros name Hn. apply load_image_readable, Ri.
        eapply Permutation_in; [apply Permutation_sym, sorted_permutation | exact Hn]. }
    cbn [bind]. rewrite Ht. cbn [bind].
    rewrite (mapM_ok _ (fun name => mask_at (truth_dir dir ++ name))).
    2:{ intros name Hn. apply load_mask_readable, Rt.
        eapply Permutation_in; [apply Permutation_sym, sorted_permutation | exact Hn]. }
    cbn [bind]. rewrite IH by exact H.
    unfold image_files, truth_files. cbn [flat_map].
    now rewrite !map_app, !map_map, !app_assoc.
Qed.

End LoaderFacts.

Lemma load_kaggle_ok resize_with_pad fs path dirs images truth :
  listdir fs (path ++ "truth")%string = Some dirs ->
  Forall (loadable resize_with_pad fs (path ++ "images/") (path ++ "truth/") images truth)
         dirs ->
  _load_kaggle_dataset resize_with_pad fs path
  = Ok (map (image_at resize_with_pad fs)
            (image_files (path ++ "images/") images dirs),
        map (mask_at resize_with_pad fs)
            (truth_files (path ++ "truth/") truth dirs)).
Proof.
  intros Hd Hl. unfold _load_kaggle_dataset, os_listdir. rewrite Hd. cbn [bind].
  now rewrite (load_dirs_ok _ _ _ _ images truth).
Qed.

Lemma image_files_listing images_path images dirs :
  image_files images_path images dirs
  = map (fun dn => (images_dir images_path (fst dn) ++ snd dn)%string)
        (listing images dirs).
Proof.
  unfold image_files, listing. induction dirs as [|dir dirs IH]; [reflexivity|].
  cbn [flat_map]. now rewrite map_app, map_map, IH.
Qed.

Lemma truth_files_listing truth_path truth dirs :
  truth_files truth_path truth dirs
  = map (fun dn => (truth_dir truth_path (fst dn) ++ snd dn)%string)
        (listing truth dirs).
Proof.
  unfold truth_files, listing. induction dirs as [|dir dirs IH]; [reflexivity|].
  cbn [flat_map]. now rewrite map_app, map_map, IH.
Qed.

Lemma listing_matching images truth dirs :
  (forall dir, In dir dirs -> Permutation (images dir) (truth dir)) ->
  listing truth dirs = listing images dirs.
Proof.
  intros H. unfold listing. induction dirs as [|dir dirs IH]; [reflexivity|].
  cbn [flat_map]. rewrite IH by (intros; apply H; now right).
  now rewrite (sorted_of_permutation (images dir) (truth dir)) by (apply H; now left).
Qed.

Lemma combine_map {A B C} (f : A -> B) (g : A -> C) l :
  combine (map f l) (map g l) = map (fun a => (f a, g a)) l.
Proof. induction l; simpl; congruence. Qed.

Lemma tiny_image_resizes :
  exists resized, tf_image.resize_with_pad tiny_image IMG_WIDTH IMG_HEIGHT = Ok resized.
Proof.
  destruct (tf_resize_with_pad_contract tiny_image 1%nat 1%nat IMG_WIDTH IMG_HEIGHT)
    as (resized & E & _).
  - split; [lia|]. split; [lia|]. split; [repeat constructor|]. split.
    + exists 3%nat. split; [lia|]. repeat constructor.
    + repeat constructor;
        match goal with
        | |- exists k, _ /\ ?v = _ => exists (Qnum v); split; [simpl; lia | reflexivity]
        end.
  - unfold IMG_WIDTH. lia.
  - unfold IMG_HEIGHT. lia.
  - unfold IMG_WIDTH, IMG_HEIGHT. split; lia.
  - now exists resized.
Qed.

(** C4, the second half as claimed fails: with two images and a single mask
    the loader raises nothing and returns lists of lengths 2 and 1. *)
Lemma load_kaggle_mismatch_not_rejected :
  exists x_train y_train,
    _load_kaggle_dataset tf_image.resize_with_pad fs_mismatch "data/"
    = Ok (x_train, y_train)
    /\ List.length x_train = 2%nat /\ List.length y_train = 1%nat.
Proof.
  do 2 eexists. split.
  - apply (load_kaggle_ok _ fs_mismatch "data/" ["a"%string]
             (fun _ => ["2.png"; "1.png"]%string) (fun _ => ["1.png"%string])).
    + reflexivity.
    + destruct tiny_image_resizes as [resized E].
      constructor; [|constructor]. repeat split.
      * intros name [<-|[<-|[]]]; exists tiny_image, resized; split;
          reflexivity || exact E.
      * intros name [<-|[]]; exists tiny_image, resized; split;
          reflexivity || exact E.
  - rewrite !length_map. split; reflexivity.
Qed.

(** C4 (amended). When the subsets are listed and every file is readable,
    the loader returns the normalised images and masks of the two trees,
    subset by subset and by ascending file name inside a subset; it compares
    neither names nor counts, so [x_train] has one entry per image file and
    [y_train] one per mask file.  When each subset holds the same file names
    in both trees, entry [i] of [x_train] and entry [i] of [y_train] come
    from the same subset and file name. *)
Theorem load_kaggle_pairs resize_with_pad fs path dirs images truth :
  listdir fs (path ++ "truth")%string = Some dirs ->
  Forall (loadable resize_with_pad fs (path ++ "images/") (path ++ "truth/") images truth)
         dirs ->
  exists x_train y_train,
    _load_kaggle_dataset resize_with_pad fs path = Ok (x_train, y_train)
    /\ x_train = map (fun dn => image_at resize_with_pad fs
                        (images_dir (path ++ "images/") (fst dn) ++ snd dn))
                     (listing images dirs)
    /\ y_train = map (fun dn => mask_at resize_with_pad fs
                        (truth_dir (path ++ "truth/") (fst dn) ++ snd dn))
                     (listing truth dirs)
    /\ (forall dir, ascending (sorted (images dir)) /\ ascending (sorted (truth dir)))
    /\ ((forall dir, In dir dirs -> Permutation (images dir) (truth dir)) ->
        combine x_train y_train
        = map (fun dn =>
                 (image_at resize_with_pad fs
                    (images_dir (path ++ "images/") (fst dn) ++ snd dn),
                  mask_at resize_with_pad fs
                    (truth_dir (path ++ "truth/") (fst dn) ++ snd dn)))
              (listing images dirs)).
Proof.
  intros Hd Hl. do 2 eexists.
  split; [exact (load_kaggle_ok resize_with_pad fs path dirs images truth Hd Hl)|].
  rewrite image_files_listing, truth_files_listing, !map_map.
  split; [reflexivity|]. split; [reflexivity|]. split.
  - intros dir; split; apply sorted_ascending.
  - intros Hm. rewrite (listing_matching images truth dirs Hm). apply combine_map.
Qed.

Lemma load_kaggle_pairs_witness :
  exists x_train y_train,
    _load_kaggle_dataset tf_image.resize_with_pad fs_matching "data/"
    = Ok (x_train, y_train)
    /\ combine x_train y_train
       = [(image_at tf_image.resize_with_pad fs_matching "data/images/a/1.png",
           mask_at tf_image.resize_with_pad fs_matching "data/truth/a/1.png");
          (image_at tf_image.resize_with_pad fs_matching "data/images/a/2.png",
           mask_at tf_image.resize_with_pad fs_matching "data/truth/a/2.png")].
Proof.
  destruct (load_kaggle_pairs tf_image.resize_with_pad fs_matching "data/" ["a"%string]
              (fun _ => ["2.png"; "1.png"]%string) (fun _ => ["1.png"; "2.png"]%string))
    as (x & y & E & _ & _ & _ & Hc).
  - reflexivity.
  - destruct tiny_image_resizes as [resized Er].
    constructor; [|constructor]. repeat split;
      intros; exists tiny_image, resized; split; reflexivity || exact Er.
  - exists x, y. split; [exact E|]. rewrite Hc; [reflexivity|].
    intros dir _. apply perm_swap.
Defined.

(** ** The U-Net *)

Import keras.

Lemma create_model_ok MobileNetV2 network :
  let encoder := MobileNetV2 model_inputs in
  Forall (has_layer encoder) named_layers ->
  _create_model MobileNetV2 network
  = Ok {| backbone := upto "block_13_expand_relu" encoder;
          outputs := unet_output;
          forward := network encoder unet_output;
          compiled := Some training_configuration |}.
Proof.
  intros encoder H. rewrite Forall_forall in H.
  destruct (H "block_13_expand_relu"%string) as [l13 E13]; [vm_compute; tauto|].
  destruct (H "block_6_expand_relu"%string) as [l6 E6]; [vm_compute; tauto|].
  destruct (H "block_3_expand_relu"%string) as [l3 E3]; [vm_compute; tauto|].
  destruct (H "block_1_expand_relu"%string) as [l1 E1]; [vm_compute; tauto|].
  destruct (H "input_image"%string) as [l0 E0]; [vm_compute; tauto|].
  unfold _create_model. fold model_inputs. fold encoder.
  cbv -[get_layer upto _dice_loss _dice_coef smooth_default encoder].
  rewrite E13, E6, E3, E1, E0. reflexivity.
Qed.







Lemma feature_map_has_layer encoder name h w :
  feature_map encoder name h w -> has_layer encoder name.
Proof. intros (l & E & _). now exists l. Qed.

Lemma shape_conv_bn_relu encoder filters x h w c :
  shape encoder x = Some (h, w, c) ->
  shape encoder (conv_bn_relu filters x) = Some (h, w, filters).
Proof. intros E. unfold conv_bn_relu. cbn [shape]. now rewrite E. Qed.

Lemma shape_decoder_stage encoder filters skip x h w c :
  shape encoder x = Some (h, w, c) ->
  feature_map encoder skip (h * 2) (w * 2) ->
  shape encoder (decoder_stage filters skip x) = Some (h * 2, w * 2, filters)%nat.
Proof.
  intros E (l & El & Es). unfold decoder_stage.
  destruct (output_shape l) as [[h' w'] c'] eqn:Ol. cbn [fst] in Es.
  injection Es as -> ->.
  eapply shape_conv_bn_relu, shape_conv_bn_relu.
  cbn [shape]. rewrite E, El, Ol, !Nat.eqb_refl. reflexivity.
Qed.

(** C6. The decoder is four stages (upsample by two, concatenate with the
    skip connection, two convolution + batch normalisation + ReLU blocks)
    over the skips block_6, block_3, block_1, input_image with 128, 64, 48
    and 32 filters, then a 1x1 convolution to one channel and a sigmoid; on
    MobileNetV2's feature maps the output has shape 512 x 512 x 1. *)
Theorem create_model_decoder MobileNetV2 network :
  let encoder := MobileNetV2 model_inputs in
  feature_map encoder "block_13_expand_relu" 32 32 ->
  feature_map encoder "block_6_expand_relu" 64 64 ->
  feature_map encoder "block_3_expand_relu" 128 128 ->
  feature_map encoder "block_1_expand_relu" 256 256 ->
  get_layer encoder "input_image" = Ok model_inputs ->
  exists unet,
    _create_model MobileNetV2 network = Ok unet
    /\ outputs unet = unet_output
    /\ shape encoder (outputs unet) = Some (512, 512, 1)%nat.
Proof.
  intros encoder F13 F6 F3 F1 E0.
  assert (F0 : feature_map encoder "input_image" 512 512)
    by (exists model_inputs; split; [exact E0 | reflexivity]).
  eexists. split.
  - apply create_model_ok. repeat constructor; eapply feature_map_has_layer; eauto.
  - cbn [outputs]. split; [reflexivity|]. unfold unet_output.
    destruct F13 as (l13 & E13 & S13).
    destruct (output_shape l13) as [[h w] c] eqn:O13. cbn [fst] in S13.
    injection S13 as -> ->.
    assert (B : shape encoder (Output "block_13_expand_relu") = Some (32, 32, c)%nat)
      by (cbn [shape]; now rewrite E13, O13).
    pose proof (shape_decoder_stage encoder 128 _ _ _ _ _ B F6) as B6.
    pose proof (shape_decoder_stage encoder 64 _ _ _ _ _ B6 F3) as B3.
    pose proof (shape_decoder_stage encoder 48 _ _ _ _ _ B3 F1) as B1.
    pose proof (shape_decoder_stage encoder 32 _ _ _ _ _ B1 F0) as B0.
    cbn [shape]. rewrite B0. reflexivity.
Qed.

Lemma create_model_decoder_witness :
  exists unet,
    _create_model mobilenet identity_network = Ok unet
    /\ outputs unet = unet_output
    /\ shape mobilenet_layers (outputs unet) = Some (512, 512, 1)%nat.
Proof.
  apply (create_model_decoder mobilenet identity_network);
    try reflexivity; eexists; split; reflexivity.
Defined.

(** ** Inference on the reloaded model *)





(** ** Further properties of the mask rasterisation *)

Section GetMaskUnion.
Local Open Scope Z_scope.
Import cv2.






Lemma get_mask_coords labels1 labels2 shape :
  map (fun l : Label => combine (fst l) (snd l)) labels1
  = map (fun l : Label => combine (fst l) (snd l)) labels2 ->
  _get_mask labels1 shape = _get_mask labels2 shape.
Proof.
  unfold _get_mask. generalize (Some (np_zeros shape)).
  revert labels2. induction labels1 as [|l1 labels1 IH]; intros [|l2 labels2] m0 E;
    try discriminate; [reflexivity|].
  simpl in E. injection E as E1 E2. cbn [fold_left]. rewrite E1. now apply IH.
Qed.

Lemma combine_longer_l {A B} (xs extra : list A) (ys : list B) :
  List.length xs = List.length ys -> combine (xs ++ extra) ys = combine xs ys.
Proof.
  revert ys. induction xs as [|a xs IH]; intros [|b ys] H; simpl in *; try discriminate.
  - now destruct extra.
  - f_equal. apply IH. lia.
Qed.

Lemma combine_longer_r {A B} (xs : list A) (ys extra : list B) :
  List.length xs = List.length ys -> combine xs (ys ++ extra) = combine xs ys.
Proof.
  revert ys. induction xs as [|a xs IH]; intros [|b ys] H; simpl in *; try discriminate.
  - reflexivity.
  - f_equal. apply IH. lia.
Qed.

(** X2. The vertices of a label are the pairs [zip] forms: when one
    coordinate list is longer than the other, its surplus entries are
    dropped silently and the mask is the one of the paired coordinates. *)
Theorem get_mask_drops_unpaired_coordinates
    (before after : list Label) (xs ys extra : list Z) (shape : nat * nat) :
  List.length xs = List.length ys ->
  _get_mask (before ++ (xs ++ extra, ys) :: after) shape
  = _get_mask (before ++ (xs, ys) :: after) shape
  /\ _get_mask (before ++ (xs, ys ++ extra) :: after) shape
     = _get_mask (before ++ (xs, ys) :: after) shape.
Proof.
  intros H. split; apply get_mask_coords; rewrite !map_app; cbn [map fst snd];
    [rewrite combine_longer_l | rewrite combine_longer_r]; auto.
Qed.

End GetMaskUnion.


Lemma get_mask_drops_unpaired_coordinates_witness :
  _get_mask ([] ++ ([0; 2; 0] ++ [7; 9], [0; 1; 1]) :: [])%Z (2, 3)%nat
  = _get_mask ([] ++ ([0; 2; 0], [0; 1; 1]) :: [])%Z (2, 3)%nat
  /\ _get_mask ([] ++ ([0; 2; 0], [0; 1; 1] ++ [7; 9]) :: [])%Z (2, 3)%nat
     = _get_mask ([] ++ ([0; 2; 0], [0; 1; 1]) :: [])%Z (2, 3)%nat.
Proof.
  apply (get_mask_drops_unpaired_coordinates [] [] [0; 2; 0]%Z [0; 1; 1]%Z [7; 9]%Z (2, 3)%nat).
  reflexivity.
Defined.

(** ** Further properties of the Dice coefficient *)

Lemma sum_row_mul_comm (a : list Q) : forall b,
  sum_row (mul_row a b) == sum_row (mul_row b a).
Proof.
  induction a as [|x a IH]; intros [|y b]; simpl; try reflexivity.
  rewrite (IH b). lra.
Qed.

Lemma reduce_sum_mul_comm (a : Tensor2) : forall b,
  reduce_sum (mul a b) == reduce_sum (mul b a).
Proof.
  induction a as [|r a IH]; intros [|s b]; simpl; try reflexivity.
  rewrite (IH b), (sum_row_mul_comm r s). reflexivity.
Qed.

(** X3. The Dice coefficient does not distinguish the ground truth from the
    prediction: exchanging the two arguments leaves its value unchanged,
    whatever the smoothing term. *)
Theorem dice_coef_symmetric (y_true y_pred : Tensor4) (smooth : Q) :
  _dice_coef y_true y_pred smooth == _dice_coef y_pred y_true smooth.
Proof.
  unfold _dice_coef. cbn [literal add sub mult div exact].
  rewrite (reduce_sum_mul_comm (Flatten y_true) (Flatten y_pred)).
  apply Qdiv_comp; [reflexivity|]. ring.
Qed.







(** ** Further properties of the folder-pair loader *)

Lemma load_dirs_app resize_with_pad fs images_path truth_path images truth ok rest :
  forall x_train y_train,
  Forall (loadable resize_with_pad fs images_path truth_path images truth) ok ->
  load_dirs resize_with_pad fs images_path truth_path (ok ++ rest) x_train y_train
  = load_dirs resize_with_pad fs images_path truth_path rest
      (x_train ++ map (image_at resize_with_pad fs) (image_files images_path images ok))
      (y_train ++ map (mask_at resize_with_pad fs) (truth_files truth_path truth ok)).
Proof.
  induction ok as [|dir ok IH]; intros x_train y_train H.
  - simpl. now rewrite !app_nil_r.
  - apply Forall_cons_iff in H as [(Hi & Ht & Ri & Rt) H].
    cbn [app load_dirs]. fold (images_dir images_path dir) (truth_dir truth_path dir).
    unfold os_listdir. rewrite Hi. cbn [bind].
    rewrite (mapM_ok _ (fun name => image_at resize_with_pad fs
                                      (images_dir images_path dir ++ name))).
    2:{ intros name Hn. apply load_image_readable, Ri.
        eapply Permutation_in; [apply Permutation_sym, sorted_permutation | exact Hn]. }
    cbn [bind]. rewrite Ht. cbn [bind].
    rewrite (mapM_ok _ (fun name => mask_at resize_with_pad fs
                                      (truth_dir truth_path dir ++ name))).
    2:{ intros name Hn. apply load_mask_readable, Rt.
        eapply Permutation_in; [apply Permutation_sym, sorted_permutation | exact Hn]. }
    cbn [bind]. rewrite IH by exact H.
    unfold image_files, truth_files. cbn [flat_map].
    now rewrite !map_app, !map_map, !app_assoc.
Qed.

Lemma string_app_assoc (a b c : string) : (a ++ b ++ c = (a ++ b) ++ c)%string.
Proof. induction a as [|x a IH]; [reflexivity|]. exact (f_equal (String x) IH). Qed.

(** X5. The loader takes the subset names from [truth/] alone.  When one of
    them has no directory under [images/], the subsets listed before it are
    loaded in full and the call then raises [FileNotFoundError] for the
    missing image directory: no partial result is returned. *)
Theorem load_kaggle_missing_image_subset
    resize_with_pad fs path images truth (ok : list string) (dir : string)
    (rest : list string) :
  listdir fs (path ++ "truth")%string = Some (ok ++ dir :: rest) ->
  Forall (loadable resize_with_pad fs (path ++ "images/") (path ++ "truth/") images truth)
         ok ->
  listdir fs (path ++ "images/" ++ dir ++ "/")%string = None ->
  _load_kaggle_dataset resize_with_pad fs path
  = Raise (FileNotFoundError (path ++ "images/" ++ dir ++ "/")).
Proof.
  intros Hd Hok Hn. unfold _load_kaggle_dataset, os_listdir. rewrite Hd. cbn [bind].
  rewrite (load_dirs_app _ _ _ _ images truth) by exact Hok.
  cbn [load_dirs]. unfold os_listdir.
  replace ((path ++ "images/") ++ dir ++ "/")%string
    with (path ++ "images/" ++ dir ++ "/")%string.
  - rewrite Hn. reflexivity.
  - apply string_app_assoc.
Qed.

Lemma load_kaggle_missing_image_subset_witness :
  _load_kaggle_dataset tf_image.resize_with_pad fs_missing_subset "data/"
  = Raise (FileNotFoundError "data/images/b/").
Proof.
  apply (load_kaggle_missing_image_subset tf_image.resize_with_pad fs_missing_subset "data/"
           (fun _ => ["1.png"%string]) (fun _ => ["1.png"%string]) ["a"%string] "b" []).
  - reflexivity.
  - destruct tiny_image_resizes as [resized E].
    constructor; [|constructor]. repeat split;
      intros; exists tiny_image, resized; split; reflexivity || exact E.
  - reflexivity.
Defined.








(** ** Further properties of the U-Net builder *)


(** ** The annotated webcam images *)

Lemma append_cons (c : ascii) (a b : string) :
  (String c a ++ b)%string = String c (a ++ b).
Proof. reflexivity. Qed.

Lemma append_nil (b : string) : (EmptyString ++ b)%string = b.
Proof. reflexivity. Qed.

Lemma prefix_app (sep b : string) : String.prefix sep (sep ++ b) = true.
Proof.
  induction sep as [|c sep IH]; [now destruct b|].
  rewrite append_cons. cbn [String.prefix].
  destruct (ascii_dec c c); [exact IH | congruence].
Qed.

Lemma split_0_fixed_no_occurrence (sep s : string) :
  sep <> EmptyString -> split_0 sep s = s -> ~ occurs sep s.
Proof.
  intros Hsep E (a & b & ->). revert E.
  induction a as [|c a IH]; rewrite ?append_cons, ?append_nil; intros E.
  - destruct sep as [|c sep]; [congruence|].
    rewrite append_cons in E. cbn [split_0] in E.
    rewrite <- append_cons, prefix_app in E. discriminate.
  - cbn [split_0] in E. destruct (String.prefix sep (String c (a ++ sep ++ b)));
      [discriminate|].
    injection E as E. exact (IH E).
Qed.

Lemma occurs_tail (sep : string) (c : ascii) (s : string) :
  occurs sep s -> occurs sep (String c s).
Proof. intros (a & b & ->). now exists (String c a), b. Qed.

Lemma split_0_png_stem (stem suffix : string) :
  ~ occurs ".png" stem -> split_0 ".png" (stem ++ ".png" ++ suffix) = stem.
Proof.
  induction stem as [|c stem IH]; intros H.
  - rewrite append_nil, !append_cons, append_nil. cbn [split_0].
    now rewrite (prefix_app ".png" suffix : String.prefix ".png" (String _ _) = true).
  - rewrite append_cons. cbn [split_0].
    destruct (String.prefix ".png" (String c (stem ++ ".png" ++ suffix))) eqn:P.
    + exfalso. apply H.
      cbn [String.prefix] in P.
      destruct (ascii_dec "." c) as [<-|]; [|discriminate].
      destruct stem as [|c1 stem]; rewrite ?append_cons, ?append_nil in P;
        cbn [String.prefix] in P; [destruct (ascii_dec "p" "."); discriminate|].
      destruct (ascii_dec "p" c1) as [<-|]; [|discriminate].
      destruct stem as [|c2 stem]; rewrite ?append_cons, ?append_nil in P;
        cbn [String.prefix] in P; [destruct (ascii_dec "n" "."); discriminate|].
      destruct (ascii_dec "n" c2) as [<-|]; [|discriminate].
      destruct stem as [|c3 stem]; rewrite ?append_cons, ?append_nil in P;
        cbn [String.prefix] in P; [destruct (ascii_dec "g" "."); discriminate|].
      destruct (ascii_dec "g" c3) as [<-|]; [|discriminate].
      now exists EmptyString, stem.
    + f_equal. apply IH. intros Ho. apply H. now apply occurs_tail.
Qed.

(** X8. Line 39 cuts the key of an annotation at its first ".png": when the
    directory and the key together read [stem ++ ".png" ++ suffix] with no
    ".png" inside [stem], the image is looked for at [stem ++ ".png"],
    whatever the suffix.  The cut applies to the directory as well as to the
    key: nothing behind the first ".png" of the two joined survives. *)
Theorem img_path_cut_after_first_png (path img_name stem suffix : string) :
  (path ++ img_name = stem ++ ".png" ++ suffix)%string ->
  ~ occurs ".png" stem ->
  img_path_of path img_name = (stem ++ ".png")%string.
Proof.
  intros E H. unfold img_path_of. rewrite E. now rewrite split_0_png_stem.
Qed.

Lemma img_path_cut_after_first_png_witness :
  img_path_of "../datasets/segmentation/" "gauge_07.png48213"
  = ("../datasets/segmentation/gauge_07" ++ ".png")%string.
Proof.
  apply (img_path_cut_after_first_png _ _ "../datasets/segmentation/gauge_07" "48213").
  - reflexivity.
  - apply split_0_fixed_no_occurrence; [discriminate | reflexivity].
Defined.

Lemma getitem_first {A} (d d' : Dict A) (key : string) :
  In key (map fst d) ->
  exists v, getitem (d ++ d') key = Returned v /\ In (key, v) d.
Proof.
  induction d as [|[k v] d IH]; intros H; [destruct H|].
  cbn [app getitem]. destruct (String.eqb k key) eqn:E.
  - apply String.eqb_eq in E as ->. exists v. split; [reflexivity | now left].
  - destruct H as [H|H]; [cbn in H; subst; rewrite String.eqb_refl in E; discriminate|].
    destruct (IH H) as (v' & Ev & Hin). exists v'. split; [exact Ev | now right].
Qed.

Lemma getitem_skip {A} (d d' : Dict A) (key : string) :
  ~ In key (map fst d) -> getitem (d ++ d') key = getitem d' key.
Proof.
  induction d as [|[k v] d IH]; intros H; [reflexivity|].
  cbn [app getitem]. destruct (String.eqb k key) eqn:E.
  - apply String.eqb_eq in E as ->. exfalso. apply H. now left.
  - apply IH. intros Hin. apply H. now right.
Qed.

Lemma region_labels_polygons (rs : Dict Region) :
  Forall (fun r => polygon (snd r)) rs ->
  forall keys, (forall k, In k keys -> In k (map fst rs)) ->
  exists labels,
    for_each (region_label rs) keys = Returned labels /\ Forall has_points labels.
Proof.
  intros Hrs. induction keys as [|k keys IH]; intros Hk.
  - exists []. split; [reflexivity | constructor].
  - destruct (getitem_first rs [] k) as (r & Er & Hin); [apply Hk; now left|].
    rewrite app_nil_r in Er.
    rewrite Forall_forall in Hrs.
    destruct (Hrs _ Hin) as (row & xs & ys & Es & Ex & Ey & Hp). cbn [snd] in *.
    destruct IH as (labels & El & Hl); [intros; apply Hk; now right|].
    exists ((xs, ys) :: labels). split; [|now constructor].
    cbn [for_each]. unfold region_label at 1. rewrite Er. cbn [and_then].
    rewrite Es. cbn [item and_then]. rewrite Ex, Ey. cbn [item and_then].
    rewrite El. reflexivity.
Qed.

Lemma two_level_valid_8bit (m : Image) (h w : nat) :
  (1 <= h)%nat -> (1 <= w)%nat ->
  has_shape m h w -> Forall (Forall two_level) m -> valid_8bit m h w.
Proof.
  intros Hh Hw Hs Ht. split; [exact Hh|]. split; [exact Hw|]. split; [exact Hs|]. split.
  - exists 1%nat. split; [lia|]. eapply Forall_impl; [|exact Ht]. intros row Hrow.
    eapply Forall_impl; [|exact Hrow]. now intros px [-> | ->].
  - eapply Forall_impl; [|exact Ht]. intros row Hrow.
    eapply Forall_impl; [|exact Hrow]. intros px [-> | ->]; constructor; try constructor.
    + exists 0%Z. split; [lia | reflexivity].
    + exists 255%Z. split; [lia | reflexivity].
Qed.

Lemma convert_image_contract resize_with_pad (image : Image) (h w : nat) :
  resize_contract resize_with_pad -> valid_8bit image h w -> fits h w 512 512 ->
  exists converted,
    _convert_image resize_with_pad image = Ok converted /\ normalised converted.
Proof.
  intros Hc Hv Hf. unfold _convert_image.
  destruct (Hc image h w IMG_WIDTH IMG_HEIGHT Hv) as (resized & E & S);
    [unfold IMG_WIDTH; lia | unfold IMG_HEIGHT; lia | exact Hf |].
  rewrite E. cbn [bind]. eexists. split; [reflexivity|]. split.
  - now apply map_pixels_shape.
  - apply map_pixels_range. intros v. apply normalised_range.
Qed.

Lemma valid_8bit_shape (img : Image) (h w : nat) :
  valid_8bit img h w -> (List.length img, List.length (hd [] img)) = (h, w).
Proof.
  intros (Hh & _ & [Hl Hr] & _). destruct img as [|row img]; [simpl in Hl; lia|].
  apply Forall_cons_iff in Hr as [Hrow _]. cbn [hd]. now rewrite Hl, Hrow.
Qed.

Section WebcamFacts.

Variable resize_with_pad : Image -> nat -> nat -> Result Image.
Variable fs : FileSystem.
Variable path : string.
Hypothesis contract : resize_contract resize_with_pad.

Lemma load_entry_annotated (ok rest : Dict Segment) (img_name : string) :
  Forall (annotated fs path) ok -> In img_name (map fst ok) ->
  exists x_i y_i,
    load_entry resize_with_pad fs path (ok ++ rest) img_name = Returned (x_i, y_i)
    /\ normalised x_i /\ normalised y_i.
Proof.
  intros Hok Hin.
  destruct (getitem_first ok rest img_name Hin) as (segment & Eg & Hs).
  rewrite Forall_forall in Hok.
  destruct (Hok _ Hs) as ((rs & Er & Hp) & (img & h & w & Ei & Hv & Hf)). cbn [fst snd] in *.
  destruct (region_labels_polygons rs Hp (map fst rs)) as (labels & El & Hl); [auto|].
  unfold load_entry. rewrite Eg. cbn [and_then]. rewrite Er. cbn [item and_then].
  rewrite El. cbn [and_then]. rewrite Ei. rewrite (valid_8bit_shape img h w Hv).
  destruct (get_mask_invariant labels h w Hl (np_zeros (h, w)))
    as (mask & Em & Hshape & Hlevels);
    [apply np_zeros_shape | apply np_zeros_two_level |].
  change (fold_left step labels (Some (np_zeros (h, w)))) with (_get_mask labels (h, w)) in Em.
  rewrite Em.
  destruct (convert_image_contract resize_with_pad img h w contract Hv Hf) as (x_i & Ex & Hx).
  destruct (convert_image_contract resize_with_pad mask h w contract) as (y_i & Ey & Hy);
    [|exact Hf|].
  { destruct Hv as (Hh & Hw & _). now apply two_level_valid_8bit. }
  rewrite Ex, Ey. cbn [builtin and_then]. now exists x_i, y_i.
Qed.

Lemma load_entries_annotated (ok rest : Dict Segment) (later : list string) :
  Forall (annotated fs path) ok ->
  forall keys x y,
    (forall k, In k keys -> In k (map fst ok)) ->
    exists xs ys,
      load_entries resize_with_pad fs path (ok ++ rest) (keys ++ later) x y
      = load_entries resize_with_pad fs path (ok ++ rest) later (x ++ xs) (y ++ ys)
      /\ List.length xs = List.length keys /\ List.length ys = List.length keys
      /\ Forall normalised xs /\ Forall normalised ys.
Proof.
  intros Hok. induction keys as [|k keys IH]; intros x y Hk.
  - exists [], []. rewrite !app_nil_r. repeat split; constructor.
  - destruct (load_entry_annotated ok rest k Hok) as (x_i & y_i & E & Hx & Hy);
      [apply Hk; now left|].
    destruct (IH (x ++ [x_i]) (y ++ [y_i])) as (xs & ys & El & Lx & Ly & Fx & Fy);
      [intros; apply Hk; now right|].
    exists (x_i :: xs), (y_i :: ys).
    cbn [app load_entries]. rewrite E. cbn [and_then fst snd]. rewrite El.
    rewrite <- !app_assoc. cbn [app List.length].
    repeat split; auto.
Qed.

End WebcamFacts.





(** X10. An image file that cannot be read does not stop [_load_dataset]
    at [cv2.imread]: the annotations of the entry are walked first, so an
    entry without [regions] raises [KeyError], and with polygon regions the
    call raises [AttributeError] for the [shape] of [None].  The entries
    loaded before it are lost with the exception. *)
Theorem load_dataset_unreadable_image
    resize_with_pad fs json_load_open path
    (ok rest : Dict Segment) (img_name : string) (segment : Segment) :
  resize_contract resize_with_pad ->
  json_load_open (path ++ "segmentation.json")%string
  = Some (ok ++ (img_name, segment) :: rest) ->
  Forall (annotated fs path) ok -> ~ In img_name (map fst ok) ->
  imread fs (img_path_of path img_name) = None ->
  (regions segment = None ->
   _load_dataset resize_with_pad fs json_load_open path = Raised (KeyError "regions"))
  /\ (forall rs, regions segment = Some rs -> Forall (fun r => polygon (snd r)) rs ->
      _load_dataset resize_with_pad fs json_load_open path
      = Raised (Builtin (AttributeError "shape"))).
Proof.
  intros Hc Ej Hok Hnew Hi. unfold _load_dataset. rewrite Ej.
  rewrite map_app. cbn [map fst].
  destruct (load_entries_annotated resize_with_pad fs path Hc ok
              ((img_name, segment) :: rest) (img_name :: map fst rest) Hok
              (map fst ok) [] [])
    as (xs & ys & E & _); [auto|].
  rewrite E. cbn [load_entries]. unfold load_entry.
  rewrite (getitem_skip ok _ img_name Hnew). cbn [getitem].
  rewrite String.eqb_refl. cbn [and_then]. split.
  - intros ->. reflexivity.
  - intros rs -> Hp. cbn [item and_then].
    destruct (region_labels_polygons rs Hp (map fst rs)) as (labels & El & _); [auto|].
    rewrite El. cbn [and_then]. rewrite Hi. reflexivity.
Qed.

Lemma load_dataset_unreadable_image_witness :
  (regions {| regions := Some [("0"%string, triangle)] |} = None ->
   _load_dataset tf_image.resize_with_pad empty_fs webcam_json "cam/"
   = Raised (KeyError "regions"))
  /\ (forall rs, regions {| regions := Some [("0"%string, triangle)] |} = Some rs ->
      Forall (fun r => polygon (snd r)) rs ->
      _load_dataset tf_image.resize_with_pad empty_fs webcam_json "cam/"
      = Raised (Builtin (AttributeError "shape"))).
Proof.
  apply (load_dataset_unreadable_image tf_image.resize_with_pad empty_fs webcam_json "cam/"
           [] [] "gauge.png48213" {| regions := Some [("0"%string, triangle)] |}).
  - exact tf_resize_with_pad_contract.
  - reflexivity.
  - constructor.
  - intros [].
  - reflexivity.
Defined.

(** ** Showing images *)

Section DisplayFacts.

Context {A : Type}.

Lemma subplots_cons rows columns first (img : A) l :
  subplots rows columns first (img :: l)
  = [add_subplot rows columns first; imshow img; axis "off"]
    ++ subplots rows columns (S first) l.
Proof. reflexivity. Qed.

Lemma subplots_nil rows columns first : @subplots A rows columns first [] = [].
Proof. reflexivity. Qed.

(** One row of images: the calls go through while the grid has room. *)
Lemma display_data_room rows columns (data : list A) :
  forall curr_img calls,
    (1 <= curr_img <= rows * columns + 1)%nat ->
    display_data rows columns data curr_img calls
    = if (curr_img + List.length data <=? rows * columns + 1)%nat
      then (Returned (curr_img + List.length data)%nat,
            calls ++ subplots rows columns curr_img data)
      else (Raised (Builtin (ValueError
                      "num must be an integer with 1 <= num <= nrows*ncols")),
            calls ++ subplots rows columns curr_img
                       (firstn (rows * columns + 1 - curr_img) data)).
Proof.
  induction data as [|img data IH]; intros curr_img calls Hc.
  - cbn [display_data List.length]. rewrite Nat.add_0_r.
    replace (curr_img <=? rows * columns + 1)%nat with true
      by (symmetry; apply Nat.leb_le; lia).
    now rewrite subplots_nil, app_nil_r.
  - cbn [display_data List.length]. unfold valid_subplot.
    destruct (curr_img <=? rows * columns)%nat eqn:E.
    + apply Nat.leb_le in E.
      replace (1 <=? curr_img)%nat with true by (symmetry; apply Nat.leb_le; lia).
      cbn [andb]. rewrite IH by lia.
      replace (curr_img + 1 + List.length data)%nat
        with (curr_img + S (List.length data))%nat by lia.
      replace (rows * columns + 1 - curr_img)%nat
        with (S (rows * columns + 1 - (curr_img + 1)))%nat by lia.
      cbn [firstn]. rewrite !subplots_cons, <- !app_assoc.
      now replace (curr_img + 1)%nat with (S curr_img) by lia.
    + apply Nat.leb_gt in E. rewrite andb_false_r.
      replace (curr_img + S (List.length data) <=? rows * columns + 1)%nat with false
        by (symmetry; apply Nat.leb_gt; lia).
      replace (rows * columns + 1 - curr_img)%nat with 0%nat by lia.
      cbn [firstn]. now rewrite subplots_nil, app_nil_r.
Qed.

Lemma display_data_app rows columns (data later : list A) :
  forall curr_img calls,
    display_data rows columns (data ++ later) curr_img calls
    = match display_data rows columns data curr_img calls with
      | (Returned curr_img, calls) => display_data rows columns later curr_img calls
      | (Raised e, calls) => (Raised e, calls)
      end.
Proof.
  induction data as [|img data IH]; intros curr_img calls; [reflexivity|].
  cbn [app display_data]. destruct (valid_subplot rows columns curr_img); [apply IH|].
  reflexivity.
Qed.

(** The two nested loops number the images of all rows in one sequence. *)
Lemma display_images_concat rows columns (images : list (list A)) :
  forall curr_img calls,
    display_images rows columns images curr_img calls
    = display_data rows columns (List.concat images) curr_img calls.
Proof.
  induction images as [|data images IH]; intros curr_img calls; [reflexivity|].
  cbn [display_images List.concat]. rewrite display_data_app.
  destruct (display_data rows columns data curr_img calls) as [[c|e] calls'];
    [apply IH | reflexivity].
Qed.



(** X12. [_display] raises in two cases, and in both the figure it opened
    is neither shown nor closed.  On an empty list it raises [IndexError]
    right after opening the figure.  When the rows hold more images than
    the grid of [len(images)] x [len(images[0])] has places, the first
    [rows * columns] images are drawn and the next [add_subplot] raises
    [ValueError]; nothing is saved. *)
Theorem display_raises_with_open_figure (name : option string) :
  _display (@nil (list A)) name
  = (Raised (IndexError "list index out of range"), [figure])
  /\ forall (first : list A) (others : list (list A)),
       (List.length (first :: others) * List.length first
        < List.length (List.concat (first :: others)))%nat ->
       exists message,
         _display (first :: others) name
         = (Raised (Builtin (ValueError message)),
            [figure]
            ++ subplots (List.length (first :: others)) (List.length first) 1
                 (firstn (List.length (first :: others) * List.length first)
                         (List.concat (first :: others)))).
Proof.
  split; [reflexivity|]. intros first others H. eexists.
  unfold _display. rewrite display_images_concat, display_data_room by lia.
  replace (1 + List.length (List.concat (first :: others))
           <=? List.length (first :: others) * List.length first + 1)%nat
    with false by (symmetry; apply Nat.leb_gt; lia).
  now replace (List.length (first :: others) * List.length first + 1 - 1)%nat
    with (List.length (first :: others) * List.length first)%nat by lia.
Qed.

End DisplayFacts.


Lemma display_raises_with_open_figure_witness :
  _display (@nil (list nat)) None
  = (Raised (IndexError "list index out of range"), [figure])
  /\ exists message,
       _display [[10]; [11; 12]]%nat None
       = (Raised (Builtin (ValueError message)),
          [figure] ++ subplots 2 1 1 [10; 11]%nat).
Proof.
  split.
  - exact (proj1 (display_raises_with_open_figure (A := nat) None)).
  - apply (proj2 (display_raises_with_open_figure (A := nat) None) [10]%nat [[11; 12]%nat]).
    simpl. lia.
Defined.




End SegmentationFacts.

Module ReGANFacts.
Import ReGAN.

(** ** Construction *)

Lemma assign_arguments_img_size base a b c d e :
  assign_arguments base a b c d e !! "img_size" = base !! "img_size".
Proof. unfold assign_arguments. now rewrite !lookup_insert_ne by discriminate. Qed.

Lemma assign_arguments_noise_dim base a b c d e :
  assign_arguments base a b c d e !! "noise_dim" = base !! "noise_dim".
Proof. unfold assign_arguments. now rewrite !lookup_insert_ne by discriminate. Qed.

Lemma create_encoder_raises (self : Object) :
  self !! "img_size" = None -> _create_encoder self = Raise (AttributeError "img_size").
Proof. intros H. unfold _create_encoder, getattr. now rewrite H. Qed.

Lemma create_image_discriminator_raises (self : Object) :
  self !! "img_size" = None ->
  _create_image_discriminator self = Raise (AttributeError "img_size").
Proof. intros H. unfold _create_image_discriminator, getattr. now rewrite H. Qed.

Lemma create_generator_raises (self : Object) :
  self !! "noise_dim" = None ->
  _create_generator self = Raise (AttributeError "noise_dim").
Proof. intros H. unfold _create_generator, getattr. now rewrite H. Qed.

Lemma init_after_super Model__init__ a b c d e kwargs base :
  super__init__ Model__init__ kwargs = Ok base ->
  base !! "img_size" = None ->
  __init__ Model__init__ a b c d e kwargs = Raise (AttributeError "img_size").
Proof.
  intros Hs Hb. unfold __init__. rewrite Hs. cbn [bind]. cbv zeta.
  fold (assign_arguments base a b c d e).
  rewrite create_encoder_raises; [reflexivity|].
  now rewrite assign_arguments_img_size.
Qed.

(** C9, as claimed fails for one choice of arguments: a keyword argument
    called name makes the call of the base constructor raise a type error. *)
Lemma init_name_keyword_raises_type_error :
  __init__ plain_Model__init__ 512 1 4096 128 5 [("name"%string, VOpaque "gan")]
  = Raise (TypeError "got multiple values for keyword argument 'name'")
  /\ forall attribute,
       __init__ plain_Model__init__ 512 1 4096 128 5 [("name"%string, VOpaque "gan")]
       <> Raise (AttributeError attribute).
Proof. split; [reflexivity|]. intros attribute. discriminate. Qed.

(** C9 (amended). No choice of constructor arguments yields an instance.
    Whenever the call of the base constructor returns, [__init__] raises an
    attribute error on img_size, in [_create_encoder]; the instance at that
    point holds image_size but neither img_size nor noise_dim, so
    [_create_generator] and [_create_image_discriminator] would raise on it
    as well.  Otherwise the exception is that of the base constructor call. *)
Theorem init_never_returns Model__init__
    (img_size channels latent_dim batch_size kernel_size : Z)
    (kwargs : list (string * PyVal)) :
  keras_base Model__init__ ->
  (exists e, __init__ Model__init__ img_size channels latent_dim batch_size kernel_size kwargs
             = Raise e)
  /\ (forall base, super__init__ Model__init__ kwargs = Ok base ->
      let self := assign_arguments base img_size channels latent_dim batch_size kernel_size in
      __init__ Model__init__ img_size channels latent_dim batch_size kernel_size kwargs
      = Raise (AttributeError "img_size")
      /\ self !! "image_size" = Some (VInt img_size)
      /\ _create_encoder self = Raise (AttributeError "img_size")
      /\ _create_generator self = Raise (AttributeError "noise_dim")
      /\ _create_image_discriminator self = Raise (AttributeError "img_size")).
Proof.
  intros Hk.
  assert (Hbase : forall base, super__init__ Model__init__ kwargs = Ok base ->
                  base !! "img_size" = None /\ base !! "noise_dim" = None).
  { unfold super__init__. intros base. destruct (existsb _ _); [discriminate|]. apply Hk. }
  split.
  - destruct (super__init__ Model__init__ kwargs) as [base|e] eqn:Hs.
    + eexists. apply (init_after_super _ _ _ _ _ _ _ base Hs). now apply Hbase.
    + exists e. unfold __init__. now rewrite Hs.
  - intros base Hs self. destruct (Hbase base Hs) as [Hi Hn].
    split; [now apply (init_after_super _ _ _ _ _ _ _ base)|].
    split; [unfold self, assign_arguments;
            now rewrite !lookup_insert_ne, lookup_insert_eq by discriminate|].
    split; [apply create_encoder_raises; unfold self;
            now rewrite assign_arguments_img_size|].
    split; [apply create_generator_raises; unfold self;
            now rewrite assign_arguments_noise_dim|].
    apply create_image_discriminator_raises; unfold self.
    now rewrite assign_arguments_img_size.
Qed.

Lemma init_never_returns_witness :
  (exists e, __init__ plain_Model__init__ 512 1 4096 128 5 [] = Raise e)
  /\ (forall base, super__init__ plain_Model__init__ [] = Ok base ->
      let self := assign_arguments base 512 1 4096 128 5 in
      __init__ plain_Model__init__ 512 1 4096 128 5 [] = Raise (AttributeError "img_size")
      /\ self !! "image_size" = Some (VInt 512)
      /\ _create_encoder self = Raise (AttributeError "img_size")
      /\ _create_generator self = Raise (AttributeError "noise_dim")
      /\ _create_image_discriminator self = Raise (AttributeError "img_size")).
Proof.
  apply (init_never_returns plain_Model__init__ 512 1 4096 128 5 []).
  intros name kwargs base [= <-]. split; reflexivity.
Defined.

(** ** The training loop *)

Section TrainFacts.

Variable Sample : Type.
Variable World : Type.
Variable tape_step : Object -> list Sample -> World -> Result (Q * Q) * World.
Variable random_normal : list PyVal -> World -> Result PyVal * World.

Abbreviation batch_loop := (batch_loop Sample World tape_step).
Abbreviation train_step := (train_step Sample World tape_step).
Abbreviation State := (State Sample World).
Abbreviation batches_from := (batches_from Sample).
Abbreviation steps_return := (steps_return Sample World tape_step).

(** A call of [train_step] is recorded, whatever its outcome. *)
Lemma train_step_recorded self images st r st' :
  train_step self images st = (r, st') -> steps _ _ st' = steps _ _ st ++ [images].
Proof.
  unfold ReGAN.train_step, mbind, record_step, lift, in_world.
  repeat (destruct (getattr self _); [|intros [= <- <-]; reflexivity]).
  cbn [world steps]. destruct (tape_step _ _ _). intros [= <- <-]. reflexivity.
Qed.

Lemma batch_loop_steps self batch_size rest :
  (0 < batch_size)%Z -> steps_return self ->
  forall i next_batch g d st,
  exists mins st',
    batch_loop self batch_size i rest next_batch g d st = (Ok mins, st')
    /\ steps _ _ st' = steps _ _ st ++ fst (batches_from batch_size i rest next_batch).
Proof.
  intros Hb Hs. induction rest as [|sample rest IH]; intros i next_batch g d st.
  - cbn [ReGAN.batch_loop batches_from fst]. unfold ret. rewrite app_nil_r. eauto.
  - cbn [ReGAN.batch_loop batches_from].
    replace (batch_size =? 0)%Z with false by (symmetry; apply Z.eqb_neq; lia).
    destruct (i mod batch_size =? 0)%Z.
    + unfold mbind. destruct (Hs (next_batch ++ [sample]) st) as (losses & st1 & E).
      rewrite E. apply train_step_recorded in E.
      destruct (IH (i + 1)%Z [] (Qmin g (fst losses)) (Qmin d (snd losses)) st1)
        as (mins & st' & E' & S').
      exists mins, st'. split; [exact E'|]. rewrite S', E.
      destruct (batches_from batch_size (i + 1) rest []) as [later left].
      cbn [fst]. now rewrite <- app_assoc.
    + apply IH.
Qed.







Lemma due_quotient epoch p :
  inject_Z epoch / (inject_Z (Z.pos p) / 10) == (10 * epoch)%Z # p.
Proof.
  unfold Qdiv.
  assert (A : / (inject_Z (Z.pos p) * / 10) == 10 # p)
    by (unfold Qeq, Qmult, Qinv, inject_Z; simpl; lia).
  rewrite A. unfold Qeq, Qmult, inject_Z. simpl. lia.
Qed.

(** In exact arithmetic the visualisation is due when ten times the epoch
    index is a multiple of the number of epochs. *)
Lemma visualization_due_iff epoch epochs :
  (0 < epochs)%Z ->
  visualization_due epoch epochs = true <-> ((10 * epoch) mod epochs = 0)%Z.
Proof.
  intros He. unfold visualization_due, Qmod. rewrite Qeq_bool_iff.
  destruct epochs as [|p|p]; try lia.
  rewrite (Qfloor_comp _ _ (due_quotient epoch p)). cbn [Qfloor].
  set (k := ((10 * epoch) / Z.pos p)%Z).
  assert (Hk : (10 * epoch = Z.pos p * k + (10 * epoch) mod Z.pos p)%Z)
    by (apply Z.div_mod; lia).
  assert (B : inject_Z epoch - inject_Z (Z.pos p) / 10 * inject_Z k
              == (10 * epoch - Z.pos p * k)%Z # 10).
  { unfold Qeq, Qminus, Qplus, Qopp, Qdiv, Qmult, Qinv, inject_Z. simpl. lia. }
  rewrite B. unfold Qeq. simpl. lia.
Qed.

(** The visualisation is due at epoch 0 of every run. *)
Lemma visualization_due_first epochs : (0 < epochs)%Z -> visualization_due 0 epochs = true.
Proof. destruct epochs as [|p|p]; try lia. intros _. reflexivity. Qed.

(** On an instance without noise_dim no run of at least one epoch returns:
    the first [train_step], or else the first visualisation, raises. *)
Lemma train_raises_without_noise_dim (self : Object) dataset epochs batch_size st :
  self !! "noise_dim" = None -> self !! "batch_size" <> None ->
  (0 < epochs)%Z -> batch_size <> 0%Z ->
  fst (ReGAN.train Sample World tape_step random_normal self dataset epochs batch_size st)
  = Raise (AttributeError "noise_dim").
Proof.
  intros Hn Hbs He Hb. unfold train.
  destruct (Z.to_nat epochs) as [|n] eqn:En; [lia|].
  cbn [seq map ReGAN.epoch_loop]. change (Z.of_nat 0) with 0%Z.
  unfold mbind at 1. destruct dataset as [|sample rest].
  - cbn [ReGAN.batch_loop]. unfold ret at 1. cbv beta iota.
    rewrite visualization_due_first by lia.
    unfold mbind, lift, getattr. now rewrite Hn.
  - cbn [ReGAN.batch_loop].
    replace (batch_size =? 0)%Z with false by (symmetry; apply Z.eqb_neq; lia).
    rewrite Z.mod_0_l by lia. cbn [Z.eqb].
    unfold ReGAN.train_step, mbind, record_step, lift, getattr.
    destruct (self !! "batch_size"); [|congruence]. now rewrite Hn.
Qed.

(** Even on an instance completed from outside, where every step and every
    draw of noise succeeds, what [train] stores at each due epoch is the
    value of the stub [call]: the returned list holds [None] only. *)
Lemma epoch_loop_stores_None (self : Object) dataset epochs batch_size v :
  (0 < batch_size)%Z -> steps_return self ->
  self !! "noise_dim" = Some v ->
  (forall shape w, exists noise w', random_normal shape w = (Ok noise, w')) ->
  forall range generated_images st,
    Forall (eq VNone) generated_images ->
    exists result st',
      ReGAN.epoch_loop Sample World tape_step random_normal self dataset epochs
        batch_size range generated_images st = (Ok result, st')
      /\ Forall (eq VNone) result
      /\ List.length result
         = (List.length generated_images
            + List.length (filter (fun epoch => visualization_due epoch epochs) range))%nat.
Proof.
  intros Hb Hs Hn Hr. induction range as [|epoch range IH]; intros acc st Hacc.
  - exists acc, st. cbn. repeat split; auto.
  - cbn [ReGAN.epoch_loop filter]. unfold mbind at 1.
    destruct (batch_loop_steps self batch_size dataset Hb Hs 0%Z [] 999999 999999 st)
      as (mins & st1 & E & _).
    rewrite E. unfold mbind at 1.
    destruct (visualization_due epoch epochs).
    + unfold mbind at 1. unfold lift, getattr. rewrite Hn.
      unfold mbind at 1. unfold in_world.
      destruct (Hr [VInt 16; v] (world _ _ st1)) as (noise & w' & En). rewrite En.
      unfold ret at 1.
      destruct (IH (acc ++ [call self noise]) {| world := w'; steps := steps _ _ st1 |})
        as (result & st' & E' & F & L).
      { apply Forall_app; split; [exact Hacc | repeat constructor]. }
      exists result, st'. split; [exact E'|]. split; [exact F|].
      rewrite L, length_app. cbn [List.length]. lia.
    + unfold ret at 1. destruct (IH acc st1 Hacc) as (result & st' & E' & F & L).
      exists result, st'. auto.
Qed.

End TrainFacts.


Example batch_loop_six_samples :
  snd (batch_loop nat unit constant_step wired_instance 3 0 [10; 11; 12; 13; 14; 15]%nat []
         999999 999999 {| world := tt; steps := [] |})
  = {| world := tt; steps := [[10]; [11; 12; 13]]%nat |}.
Proof. reflexivity. Qed.

(** C8, evaluated.  On an instance holding the attributes [__init__]
    assigns, [train] over ten epochs raises an attribute error on noise_dim
    at the end of epoch 0 and returns no list.  With noise_dim supplied from
    outside, the ten visualisation slots all hold [None], the value of the
    stub [call]: no image is generated or stored. *)
Theorem train_stores_no_images :
  fst (train nat unit constant_step zero_noise assigned_instance [] 10 128
         {| world := tt; steps := [] |})
  = Raise (AttributeError "noise_dim")
  /\ fst (train nat unit constant_step zero_noise
            (<["noise_dim" := VInt 4096]> assigned_instance) [] 10 128
            {| world := tt; steps := [] |})
     = Ok (repeat VNone 10).
Proof. split; vm_compute; reflexivity. Qed.

(** ** What a constructed instance would look like *)




(** ** The summary *)




(** ** The configuration *)



(** ** Further properties of the training loop *)

Section TrainMore.

Variable Sample : Type.
Variable World : Type.
Variable tape_step : Object -> list Sample -> World -> Result (Q * Q) * World.
Variable random_normal : list PyVal -> World -> Result PyVal * World.

(** X16. On an instance without [noise_dim] (the constructor assigns none)
    a run of at least one epoch never reaches the tape: with a non-empty
    dataset the first sample alone is handed to [train_step], which raises
    [AttributeError] on [noise_dim] before anything is computed; with an
    empty dataset the first visualisation raises it.  The state of
    TensorFlow is left as it was. *)
Theorem train_without_noise_dim
    (self : Object) (dataset : list Sample) (epochs batch_size : Z)
    (st : State Sample World) :
  self !! "noise_dim" = None -> self !! "batch_size" <> None ->
  (0 < epochs)%Z -> batch_size <> 0%Z ->
  train Sample World tape_step random_normal self dataset epochs batch_size st
  = (Raise (AttributeError "noise_dim"),
     {| world := world _ _ st;
        steps := steps _ _ st ++ match dataset with
                                 | [] => []
                                 | sample :: _ => [[sample]]
                                 end |}).
Proof.
  intros Hn Hbs He Hb. unfold train.
  destruct (Z.to_nat epochs) as [|n] eqn:En; [lia|].
  cbn [seq map epoch_loop]. change (Z.of_nat 0) with 0%Z.
  unfold mbind at 1. destruct dataset as [|sample rest].
  - cbn [batch_loop]. unfold ret at 1. cbv beta iota.
    rewrite visualization_due_first by lia.
    unfold mbind, lift, getattr. rewrite Hn. rewrite app_nil_r. now destruct st.
  - cbn [batch_loop].
    replace (batch_size =? 0)%Z with false by (symmetry; apply Z.eqb_neq; lia).
    rewrite Z.mod_0_l by lia. cbn [Z.eqb].
    unfold train_step, mbind, record_step, lift, getattr.
    destruct (self !! "batch_size"); [|congruence]. now rewrite Hn.
Qed.

(** X17. With [batch_size = 0] and a non-empty dataset, [train] raises
    [ZeroDivisionError] at the first sample of the first epoch, on any
    instance: no [train_step] is called and nothing changes. *)
Theorem train_with_zero_batch_size
    (self : Object) (sample : Sample) (rest : list Sample) (epochs : Z)
    (st : State Sample World) :
  (0 < epochs)%Z ->
  train Sample World tape_step random_normal self (sample :: rest) epochs 0 st
  = (Raise ZeroDivisionError, st).
Proof.
  intros He. unfold train.
  destruct (Z.to_nat epochs) as [|n] eqn:En; [lia|].
  cbn [seq map epoch_loop]. unfold mbind at 1. cbn [batch_loop Z.eqb].
  reflexivity.
Qed.


(** X19. On an instance completed from outside, where every training step
    and every draw of noise succeeds, a run of at least one epoch returns a
    non-empty list all of whose entries are [None], the value of the stub
    [call]: [train] never returns a generated image. *)
Theorem train_returns_only_None
    (self : Object) (dataset : list Sample) (epochs batch_size : Z) (v : PyVal)
    (st : State Sample World) :
  (0 < epochs)%Z -> (0 < batch_size)%Z ->
  steps_return Sample World tape_step self ->
  self !! "noise_dim" = Some v ->
  (forall shape w, exists noise w', random_normal shape w = (Ok noise, w')) ->
  exists result st',
    train Sample World tape_step random_normal self dataset epochs batch_size st
    = (Ok result, st')
    /\ result <> []
    /\ Forall (eq VNone) result.
Proof.
  intros He Hb Hs Hn Hr. unfold train.
  destruct (epoch_loop_stores_None Sample World tape_step random_normal self dataset
              epochs batch_size v Hb Hs Hn Hr
              (map Z.of_nat (seq 0 (Z.to_nat epochs))) [] st (Forall_nil _))
    as (result & st' & E & F & L).
  exists result, st'. split; [exact E|]. split; [|exact F].
  destruct (Z.to_nat epochs) as [|n] eqn:En; [lia|].
  cbn [seq map filter] in L. change (Z.of_nat 0) with 0%Z in L.
  rewrite visualization_due_first in L by lia. cbn [List.length] in L.
  intros ->. discriminate.
Qed.

End TrainMore.

Lemma train_without_noise_dim_witness :
  train nat unit constant_step zero_noise assigned_instance [10; 11; 12]%nat 10 128
    {| world := tt; steps := [] |}
  = (Raise (AttributeError "noise_dim"), {| world := tt; steps := [] ++ [[10%nat]] |}).
Proof.
  apply (train_without_noise_dim nat unit constant_step zero_noise assigned_instance
           [10; 11; 12]%nat 10 128 {| world := tt; steps := [] |}).
  - reflexivity.
  - discriminate.
  - lia.
  - lia.
Defined.

Lemma train_with_zero_batch_size_witness :
  train nat unit constant_step zero_noise wired_instance (10 :: [11; 12])%nat 10 0
    {| world := tt; steps := [] |}
  = (Raise ZeroDivisionError, {| world := tt; steps := [] |}).
Proof.
  apply (train_with_zero_batch_size nat unit constant_step zero_noise wired_instance
           10%nat [11; 12]%nat 10 {| world := tt; steps := [] |}).
  lia.
Defined.


Lemma train_returns_only_None_witness :
  exists result st',
    train nat unit constant_step zero_noise wired_instance [10; 11; 12]%nat 10 2
      {| world := tt; steps := [] |}
    = (Ok result, st')
    /\ result <> []
    /\ Forall (eq VNone) result.
Proof.
  apply (train_returns_only_None nat unit constant_step zero_noise wired_instance
           [10; 11; 12]%nat 10 2 (VInt 4096)).
  - lia.
  - lia.
  - intros images st. do 2 eexists. reflexivity.
  - reflexivity.
  - intros shape w. do 2 eexists. reflexivity.
Defined.

(** ** Shapes of the three networks *)

Section Shapes.
Local Open Scope Z_scope.

(** Settle the size tests of the layers that linear arithmetic decides. *)
Ltac settle_sizes :=
  repeat match goal with
  | |- context [(?a <=? ?b)] =>
      first [ replace (a <=? b) with true
                by (symmetry; apply Z.leb_le; Z.div_mod_to_equations; lia)
            | replace (a <=? b) with false
                by (symmetry; apply Z.leb_gt; Z.div_mod_to_equations; lia) ]
  | |- context [(?a =? ?b)] =>
      first [ replace (a =? b) with true by (symmetry; apply Z.eqb_eq; lia)
            | replace (a =? b) with false by (symmetry; apply Z.eqb_neq; lia) ]
  end.

(** X20. On an instance that holds [noise_dim] and [channels], the
    generator turns a noise vector into an image of 512 x 512 pixels with
    [channels] channels: the transposed convolution makes 4 x 4 of the 1 x 1
    input and the seven up-samplings double it seven times.  The size is
    fixed by the layers; [img_size] plays no part in it. *)
Theorem generator_output_is_512 (self : Object) (noise_dim channels : Z) :
  self !! "noise_dim" = Some (VInt noise_dim) ->
  self !! "channels" = Some (VInt channels) ->
  1 <= noise_dim -> 1 <= channels ->
  exists layers,
    _create_generator self = Ok (VSequential None layers)
    /\ output_shape layers = Some [512; 512; channels].
Proof.
  intros Hn Hc Pn Pc. unfold _create_generator, getattr. rewrite Hn, Hc.
  cbn [bind rev app fold_left]. eexists. split; [reflexivity|].
  unfold output_shape. cbn [declared_input dimensions]. settle_sizes.
  cbn [fold_left layer_output dimensions product fold_right String.eqb Ascii.eqb
       Bool.eqb andb].
  settle_sizes. cbn [andb].
  unfold product, fold_right. settle_sizes. reflexivity.
Qed.

(** X21. On an instance that holds [img_size] and [channels], the image
    discriminator maps an image of [img_size] x [img_size] pixels to a single
    value when [img_size] is at least 128; each of its seven poolings halves
    the size, so a smaller image is used up before the last pooling and Keras
    refuses the stack. *)
Theorem image_discriminator_needs_128 (self : Object) (img_size channels : Z) :
  self !! "img_size" = Some (VInt img_size) ->
  self !! "channels" = Some (VInt channels) ->
  1 <= img_size -> 1 <= channels ->
  exists layers,
    _create_image_discriminator self = Ok (VSequential None layers)
    /\ output_shape layers = if 128 <=? img_size then Some [1] else None.
Proof.
  intros Hs Hc Ps Pc. unfold _create_image_discriminator, getattr. rewrite Hs, Hc.
  cbn [bind app fold_left]. eexists. split; [reflexivity|].
  unfold output_shape. cbn [declared_input dimensions]. settle_sizes.
  cbn [fold_left layer_output dimensions]. settle_sizes.
  destruct (list_eq_dec Z.eq_dec [img_size; img_size; channels]
              [img_size; img_size; channels]) as [_|N]; [|congruence].
  cbn [String.eqb Ascii.eqb Bool.eqb andb].
  destruct (Z.leb_spec 128 img_size) as [H|H].
  - repeat (settle_sizes; cbn [andb]). reflexivity.
  - repeat match goal with
    | |- context [if (?a <=? ?b) && _ then _ else _] =>
        destruct (Z.leb_spec a b); cbn [andb]; try reflexivity
    end.
    Z.div_mod_to_equations. lia.
Qed.

(** X22. On an instance that holds [img_size], [channels], [kernel_size] and
    [latent_dim], the encoder keeps the image at its full size through the
    four convolutions: what it flattens has [img_size * img_size * 128]
    entries, all of them inputs of the one dense layer that produces the
    [latent_dim] outputs. *)
Theorem encoder_flattens_full_resolution
    (self : Object) (img_size channels kernel_size latent_dim : Z) :
  self !! "img_size" = Some (VInt img_size) ->
  self !! "channels" = Some (VInt channels) ->
  self !! "kernel_size" = Some (VInt kernel_size) ->
  self !! "latent_dim" = Some (VInt latent_dim) ->
  1 <= img_size -> 1 <= channels -> 1 <= kernel_size -> 1 <= latent_dim ->
  exists body,
    _create_encoder self
    = Ok (VSequential (Some "Encoder"%string) (body ++ [Dense (VInt latent_dim)]))
    /\ output_shape body = Some [img_size * img_size * 128]
    /\ output_shape (body ++ [Dense (VInt latent_dim)]) = Some [latent_dim].
Proof.
  intros Hs Hc Hk Hl Ps Pc Pk Pl. unfold _create_encoder, getattr. rewrite Hs, Hc.
  cbn [bind fold_left]. rewrite Hk. cbn [bind app]. rewrite Hl. cbn [bind].
  exists [InputLayer [VInt img_size; VInt img_size; VInt channels];
          Conv2D (VInt 16) (VInt kernel_size) "same"; Activation "relu";
          Conv2D (VInt 32) (VInt kernel_size) "same"; Activation "relu";
          Conv2D (VInt 64) (VInt kernel_size) "same"; Activation "relu";
          Conv2D (VInt 128) (VInt kernel_size) "same"; Activation "relu"; Flatten].
  split; [reflexivity|].
  unfold output_shape. cbn [app declared_input dimensions]. settle_sizes.
  cbn [fold_left layer_output dimensions]. settle_sizes.
  destruct (list_eq_dec Z.eq_dec [img_size; img_size; channels]
              [img_size; img_size; channels]) as [_|N]; [|congruence].
  cbn [String.eqb Ascii.eqb Bool.eqb andb product fold_right removelast app].
  split; do 2 f_equal; lia.
Qed.

End Shapes.

Lemma generator_output_is_512_witness :
  exists layers,
    _create_generator (<["noise_dim" := VInt 100]> assigned_instance)
    = Ok (VSequential None layers)
    /\ output_shape layers = Some [512; 512; 1]%Z.
Proof.
  apply (generator_output_is_512 (<["noise_dim" := VInt 100]> assigned_instance) 100 1).
  - reflexivity.
  - reflexivity.
  - lia.
  - lia.
Defined.

Lemma image_discriminator_needs_128_witness :
  exists layers,
    _create_image_discriminator (<["img_size" := VInt 64]> assigned_instance)
    = Ok (VSequential None layers)
    /\ output_shape layers = if (128 <=? 64)%Z then Some [1%Z] else None.
Proof.
  apply (image_discriminator_needs_128 (<["img_size" := VInt 64]> assigned_instance) 64 1).
  - reflexivity.
  - reflexivity.
  - lia.
  - lia.
Defined.

Lemma encoder_flattens_full_resolution_witness :
  exists body,
    _create_encoder (<["img_size" := VInt 512]> assigned_instance)
    = Ok (VSequential (Some "Encoder"%string) (body ++ [Dense (VInt 4096)]))
    /\ output_shape body = Some [512 * 512 * 128]%Z
    /\ output_shape (body ++ [Dense (VInt 4096)]) = Some [4096%Z].
Proof.
  apply (encoder_flattens_full_resolution (<["img_size" := VInt 512]> assigned_instance)
           512 1 5 4096).
  - reflexivity.
  - reflexivity.
  - reflexivity.
  - reflexivity.
  - lia.
  - lia.
  - lia.
  - lia.
Defined.

End ReGANFacts.
